(** * Display7Seg: a multiplexed seven-segment display driver

    Shallow embedding of the class template [Display7Seg] of
    [src/Display7Seg.h] and proofs of its specified properties.

    Conventions of the embedding:
    - [byte] data (segment bitmaps, pin numbers, glyph numbers) are values
      of [N]; every narrowing conversion to [byte] that the C++ code
      performs is written out with [to_byte];
    - [unsigned] quantities used as array indices are values of [nat];
    - the member arrays are lists, read and written through checked
      accessors, so that an access outside an array shows up as the
      result [OutOfBounds] instead of being silently defined;
    - the Arduino calls [pinMode] and [digitalWrite] are recorded, in
      order, in the trace of output events of each operation. *)

From Stdlib Require Import NArith Arith Lia List Bool.
From stdpp Require Import base list gmap.
Import ListNotations.

Open Scope nat_scope.

(** ** Output events and line levels *)

Inductive event : Type :=
| PinModeOutput (pin : N)
| DigitalWrite (pin : N) (level : bool).

(** The electrical state of the output lines: the level last written to
    each pin, [None] for a pin that was never driven. *)
Abbreviation levels := (gmap N bool).

Definition apply_event (lv : levels) (e : event) : levels :=
  match e with
  | PinModeOutput _ => lv
  | DigitalWrite p l => <[p := l]> lv
  end.

Definition replay (tr : list event) (lv : levels) : levels :=
  fold_left apply_event tr lv.

(** [always P lv tr]: [P] holds of the line levels before the first event
    of [tr] and after every one of its events. *)
Fixpoint always (P : levels -> Prop) (lv : levels) (tr : list event) : Prop :=
  match tr with
  | [] => P lv
  | e :: tr' => P lv /\ always P (apply_event lv e) tr'
  end.

(** ** The object state *)

Record state : Type := mkState {
  _digitpins : list N;      (* byte _digitpins[numdigits] *)
  _segmentpins : list N;    (* byte _segmentpins[havedp ? 8 : 7] *)
  _display : list N;        (* volatile byte _display[numdigits] *)
  _curdigit : nat;          (* volatile byte _curdigit *)
  dummy : N                 (* static byte dummy of operator[] *)
}.

Definition with_digitpins (l : list N) (s : state) : state :=
  mkState l (_segmentpins s) (_display s) (_curdigit s) (dummy s).
Definition with_segmentpins (l : list N) (s : state) : state :=
  mkState (_digitpins s) l (_display s) (_curdigit s) (dummy s).
Definition with_display (l : list N) (s : state) : state :=
  mkState (_digitpins s) (_segmentpins s) l (_curdigit s) (dummy s).
Definition with_curdigit (c : nat) (s : state) : state :=
  mkState (_digitpins s) (_segmentpins s) (_display s) c (dummy s).
Definition with_dummy (d : N) (s : state) : state :=
  mkState (_digitpins s) (_segmentpins s) (_display s) (_curdigit s) d.

(** ** Results and the monad of member functions *)

Inductive result (A : Type) : Type :=
| Ok (a : A)
| OutOfBounds.
Arguments Ok {A} a.
Arguments OutOfBounds {A}.

(** A member function maps the object state to a value, the new state
    and the output events it performed, or runs into an access outside
    an array. *)
Definition M (A : Type) : Type := state -> result (A * state * list event).

Definition ret {A} (a : A) : M A := fun s => Ok (a, s, []).

Definition bind {A B} (m : M A) (f : A -> M B) : M B :=
  fun s =>
    match m s with
    | Ok (a, s1, t1) =>
        match f a s1 with
        | Ok (b, s2, t2) => Ok (b, s2, t1 ++ t2)
        | OutOfBounds => OutOfBounds
        end
    | OutOfBounds => OutOfBounds
    end.

Notation "x <- c ;; k" := (bind c (fun x => k))
  (at level 100, c at next level, right associativity).
Notation "c ;; k" := (bind c (fun _ => k))
  (at level 100, right associativity).

Definition pinMode (pin : N) : M unit :=
  fun s => Ok (tt, s, [PinModeOutput pin]).
Definition digitalWrite (pin : N) (level : bool) : M unit :=
  fun s => Ok (tt, s, [DigitalWrite pin level]).

(** Checked array accesses. *)
Definition array_read (l : list N) (i : nat) : M N :=
  fun s => match l !! i with
           | Some x => Ok (x, s, [])
           | None => OutOfBounds
           end.
Definition array_write (get : state -> list N) (set : list N -> state -> state)
    (i : nat) (x : N) : M unit :=
  fun s => if i <? length (get s)
           then Ok (tt, set (<[i := x]> (get s)) s, [])
           else OutOfBounds.

Definition read_digitpins (i : nat) : M N := fun s => array_read (_digitpins s) i s.
Definition read_segmentpins (i : nat) : M N := fun s => array_read (_segmentpins s) i s.
Definition read_display (i : nat) : M N := fun s => array_read (_display s) i s.
Definition write_digitpins : nat -> N -> M unit := array_write _digitpins with_digitpins.
Definition write_segmentpins : nat -> N -> M unit := array_write _segmentpins with_segmentpins.
Definition write_display : nat -> N -> M unit := array_write _display with_display.

Definition get_curdigit : M nat := fun s => Ok (_curdigit s, s, []).

(** Narrowing conversions to [byte]. *)
Definition to_byte (x : N) : N := (x mod 256)%N.
Definition nat_to_byte (x : nat) : nat := x mod 256.

Definition set_curdigit (c : nat) : M unit :=
  fun s => Ok (tt, with_curdigit (nat_to_byte c) s, []).

(** [for (unsigned i = lo; i < lo + count; i++) body(i)] *)
Fixpoint for_upto (count i : nat) (body : nat -> M unit) : M unit :=
  match count with
  | 0 => ret tt
  | S count' => body i ;; for_upto count' (S i) body
  end.

(** The glyph table of [setNumber]: [static const byte table[16]]. *)
Definition table : list N :=
  [ 0x3F (* B00111111, 0 *); 0x06 (* B00000110 *); 0x5B (* B01011011 *);
    0x4F (* B01001111 *); 0x66 (* B01100110 *); 0x6D (* B01101101 *);
    0x7D (* B01111101 *); 0x07 (* B00000111 *); 0x7F (* B01111111 *);
    0x6F (* B01101111 *);
    0x77 (* B01110111, A *); 0x7C (* B01111100 *); 0x39 (* B00111001 *);
    0x5E (* B01011110 *); 0x79 (* B01111001 *); 0x71 (* B01110001 *) ]%N.

(** A place a [volatile byte &] can designate. *)
Inductive loc : Type :=
| LDisplay (i : nat)     (* _display[i] *)
| LDummy.                (* the static scratch pad *)

Definition load (l : loc) : M N :=
  match l with
  | LDisplay i => read_display i
  | LDummy => fun s => Ok (dummy s, s, [])
  end.
Definition store (l : loc) (x : N) : M unit :=
  match l with
  | LDisplay i => write_display i (to_byte x)
  | LDummy => fun s => Ok (tt, with_dummy (to_byte x) s, [])
  end.

(** ** The class template *)

(** The template parameters of [Display7Seg]; an instance of the class
    is an instantiation of the template. *)
Class Template : Type := {
  numdigits : nat;      (* Number of digits; 1 or higher *)
  havedp : bool;        (* True if display has decimal point *)
  digiton : bool;       (* Pin value to turn a digit on *)
  segmenton : bool      (* Pin value to turn a segment on *)
}.

Section Display7Seg.

Context {tpl : Template}.

(** [_countof(_segmentpins)] *)
Definition numsegments : nat := if havedp then 8 else 7.

(** The array types: every object has arrays of these sizes. *)
Definition wf (s : state) : Prop :=
  length (_digitpins s) = numdigits /\
  length (_segmentpins s) = numsegments /\
  length (_display s) = numdigits.

(** Constructor: runs on the storage of the object, which it finds in
    state [s]; it assigns the elements of [_display] and nothing else. *)
Definition Display7Seg : M unit :=
  for_upto numdigits 0 (fun i => write_display i 0%N).

(** The segment loop of [showDigit]:
    [for (unsigned i = 0; i < _countof(_segmentpins); i++, b >>= 1)]. *)
Fixpoint segment_loop (count i : nat) (b : N) : M unit :=
  match count with
  | 0 => ret tt
  | S count' =>
      p <- read_segmentpins i ;;
      digitalWrite p (if negb (N.land b 1 =? 0)%N then segmenton else negb segmenton) ;;
      segment_loop count' (S i) (N.shiftr b 1)
  end.

(** [_curdigit] is read once: nothing else writes it while [showDigit]
    runs. *)
Definition showDigit (newdigit : nat) : M unit :=
  cur <- get_curdigit ;;
  (if cur <? numdigits then
     (if negb (newdigit =? cur) then
        p <- read_digitpins cur ;;
        digitalWrite p (negb digiton)
      else ret tt) ;;
     b <- (if newdigit <? numdigits then read_display newdigit else ret 0%N) ;;
     segment_loop numsegments 0 b
   else ret tt) ;;
  (if newdigit <? numdigits then
     p <- read_digitpins newdigit ;;
     digitalWrite p digiton
   else ret tt) ;;
  set_curdigit newdigit.

Definition setBlank (onoff : bool) : M unit :=
  showDigit (if onoff then numdigits else 0).

Definition begin (digitpins segmentpins : list N) (blank : bool) : M unit :=
  for_upto numdigits 0 (fun i =>
    p <- array_read digitpins i ;;
    write_digitpins i p ;;
    pinMode p ;;
    digitalWrite p (negb digiton)) ;;
  for_upto numsegments 0 (fun i =>
    p <- array_read segmentpins i ;;
    write_segmentpins i p ;;
    pinMode p ;;
    digitalWrite p (negb segmenton)) ;;
  setBlank blank.

Definition show : M unit :=
  cur <- get_curdigit ;;
  if cur <? numdigits then
    let nextdigit := cur + 1 in
    let nextdigit := if numdigits <=? nextdigit then 0 else nextdigit in
    showDigit nextdigit
  else ret tt.

Definition operator_index (index : nat) : loc :=
  if index <? numdigits then LDisplay index else LDummy.

Definition isBlank : M bool :=
  cur <- get_curdigit ;; ret (numdigits <=? cur).

Definition setSegments (index : nat) (bitmap : N) (show : bool) : M unit :=
  let bitmap := to_byte bitmap in      (* parameter of type byte *)
  if index <? numdigits then
    write_display index bitmap ;;
    if show then showDigit index else ret tt
  else ret tt.

Definition setNumber (index : nat) (num : N) (dp show : bool) : M unit :=
  let num := to_byte num in            (* parameter of type byte *)
  if (index <? numdigits) && (num <=? 16)%N then
    g <- array_read table (N.to_nat num) ;;
    setSegments index (N.lor g (if dp then 0x80 else 0)%N) show
  else ret tt.

(** The loop of [setValue], [for (unsigned i = _countof(_display); i-- > 0;)]:
    [setValue_loop i value] runs the iterations for the positions
    [i-1], ..., [0] and returns the final [value].  The template
    parameter [radix] and the value, of an unsigned type [T], are
    natural numbers; [radix] is at least 1 (the code divides by it). *)
Fixpoint setValue_loop (radix : N) (leadingzero : bool) (dppos : nat)
    (i : nat) (value : N) : M N :=
  match i with
  | 0 => ret value
  | S i =>
      let v := to_byte (value mod radix) in
      (if negb (v =? 0)%N || negb (value =? 0)%N || leadingzero
          || (dppos <=? i) || (i =? numdigits - 1)
       then setNumber i v (dppos =? i) false
       else setSegments i (if dppos =? i then 0x80%N else 0%N) false) ;;
      setValue_loop radix leadingzero dppos i (value / radix)%N
  end.

Definition setValue (radix : N) (value : N) (leadingzero : bool) (dppos : nat)
    : M bool :=
  value <- setValue_loop radix leadingzero dppos numdigits value ;;
  ret (value =? 0)%N.

End Display7Seg.

(** The events with which [begin] initialises the lines [pins]: each is
    made an output and driven to its off level. *)
Definition init_trace (off : bool) (pins : list N) : list event :=
  flat_map (fun p => [PinModeOutput p; DigitalWrite p off]) pins.

(** [s'] differs from [s] in the contents of [_display] at most. *)
Definition buffer_only (s s' : state) : Prop :=
  s' = with_display (_display s') s /\ length (_display s') = length (_display s).

(** ** The public interface as a type of operations *)

Inductive op : Type :=
| OpBegin (digitpins segmentpins : list N) (blank : bool)
| OpShow
| OpIndexStore (index : nat) (x : N)      (* display[index] = x *)
| OpIndexLoad (index : nat)               (* ... = display[index] *)
| OpSetBlank (onoff : bool)
| OpIsBlank
| OpSetSegments (index : nat) (bitmap : N) (show : bool)
| OpSetNumber (index : nat) (num : N) (dp show : bool)
| OpSetValue (radix value : N) (leadingzero : bool) (dppos : nat).

Definition discard {A} (m : M A) : M unit := _ <- m ;; ret tt.

Section Display7SegRuns.

Context {tpl : Template}.

Definition exec (o : op) : M unit :=
  match o with
  | OpBegin dps sps blank => begin dps sps blank
  | OpShow => show
  | OpIndexStore index x => store (operator_index index) x
  | OpIndexLoad index => discard (load (operator_index index))
  | OpSetBlank onoff => setBlank onoff
  | OpIsBlank => discard isBlank
  | OpSetSegments index bitmap sh =>
      setSegments index bitmap sh
  | OpSetNumber index num dp sh =>
      setNumber index num dp sh
  | OpSetValue radix value lz dppos =>
      discard (setValue radix value lz dppos)
  end.

Fixpoint run (ops : list op) : M unit :=
  match ops with
  | [] => ret tt
  | o :: ops' => exec o ;; run ops'
  end.

(** The cursors that [k] consecutive calls of [show] pass through. *)
Fixpoint show_cursors (k : nat) (s : state) : list nat :=
  match k with
  | 0 => []
  | S k' =>
      match show s with
      | Ok (_, s', _) => _curdigit s' :: show_cursors k' s'
      | OutOfBounds => []
      end
  end.

(** ** Vocabulary of the specification *)

(** The template parameters the class is meant for: at least one digit,
    and few enough for the blanking value [numdigits] to fit [_curdigit]. *)
Definition valid_config : Prop := 1 <= numdigits <= 255.

(** The invariant of the cursor. *)
Definition cursor_inv (s : state) : Prop := _curdigit s <= numdigits.

Definition pin_of (pins : list N) (k : nat) : N := default 0%N (pins !! k).

Definition seg_level (bit : bool) : bool :=
  if bit then segmenton else negb segmenton.

(** Driving the segment lines with the pattern [b], segment a first. *)
Definition segment_writes (sp : list N) (b : N) : list event :=
  map (fun k => DigitalWrite (pin_of sp k) (seg_level (N.testbit b (N.of_nat k))))
      (seq 0 numsegments).

(** The pattern [showDigit] loads for [newdigit]: all off when blanking. *)
Definition pattern_of (s : state) (newdigit : nat) : N :=
  if newdigit <? numdigits then default 0%N (_display s !! newdigit) else 0%N.

Definition showDigit_trace (newdigit : nat) (s : state) : list event :=
  (if _curdigit s <? numdigits then
     (if newdigit =? _curdigit s then []
      else [DigitalWrite (pin_of (_digitpins s) (_curdigit s)) (negb digiton)])
     ++ segment_writes (_segmentpins s) (pattern_of s newdigit)
   else [])
  ++ (if newdigit <? numdigits
      then [DigitalWrite (pin_of (_digitpins s) newdigit) digiton]
      else []).

(** A line is driven active when the last level written to it is the
    digit-on level. *)
Definition driven_active (lv : levels) (p : N) : Prop := lv !! p = Some digiton.

(** At most one of the digit-select lines [dps] is driven active. *)
Definition exclusive (dps : list N) (lv : levels) : Prop :=
  forall p q, p ∈ dps -> q ∈ dps ->
    driven_active lv p -> driven_active lv q -> p = q.

(** An event that drives none of the lines [dps] active. *)
Definition calm_event (dps : list N) (e : event) : Prop :=
  match e with
  | PinModeOutput _ => True
  | DigitalWrite p l => p ∈ dps -> l = negb digiton
  end.

(** No digit-select line other than [a] is driven active. *)
Definition only_active (dps : list N) (lv : levels) (a : option N) : Prop :=
  forall p, p ∈ dps -> driven_active lv p -> a = Some p.

(** The object is bound to the lines [dps] and [sps], and the line of
    the digit under the cursor is the only one that may be active. *)
Definition coherent (dps sps : list N) (s : state) (lv : levels) : Prop :=
  _digitpins s = dps /\ _segmentpins s = sps /\
  only_active dps lv (if _curdigit s <? numdigits then dps !! _curdigit s else None).

(** Digit-select lines and segment lines are different lines. *)
Definition separate (dps sps : list N) : Prop :=
  forall p, p ∈ dps -> p ∉ sps.

(** Every later [begin] binds the same lines. *)
Definition same_binding (dps sps : list N) (o : op) : Prop :=
  match o with
  | OpBegin dps' sps' _ => dps' = dps /\ sps' = sps
  | _ => True
  end.

(** The glyph of a digit with the decimal-point bit, where the digit has
    a glyph. *)
Definition glyph_cell (d : N) (dp : bool) : option N :=
  match table !! N.to_nat d with
  | Some g => Some (N.lor g (if dp then 0x80 else 0))
  | None => None
  end.

(** The digit of [value] that belongs at position [i], and the value
    that remains to its left. *)
Definition digit_at (radix value : N) (i : nat) : N :=
  ((value / radix ^ N.of_nat (numdigits - 1 - i)) mod radix)%N.
Definition higher_at (radix value : N) (i : nat) : N :=
  (value / radix ^ N.of_nat (numdigits - i))%N.

(** What the specification of [setValue] puts at position [i]. *)
Definition setValue_cell (radix value : N) (leadingzero : bool) (dppos i : nat)
    : option N :=
  if (digit_at radix value i =? 0)%N && (higher_at radix value i =? 0)%N
     && negb leadingzero && (i <? dppos) && negb (i =? numdigits - 1)
  then Some (if dppos =? i then 0x80%N else 0%N)
  else glyph_cell (digit_at radix value i) (dppos =? i).

End Display7SegRuns.

(** ** Example objects *)

(** Storage with every byte zero, as an object of static storage
    duration has it before its constructor runs. *)
Definition zero_storage {tpl : Template} : state :=
  mkState (repeat 0%N numdigits) (repeat 0%N numsegments)
          (repeat 0%N numdigits) 0 0%N.

(** The display of [examples/Timer/Timer.ino]: four digits with decimal
    points and active-high lines; its state after [begin]. *)
Definition timer : Template :=
  {| numdigits := 4; havedp := true; digiton := true; segmenton := true |}.
Definition timer_digits : list N := [5; 4; 3; 2]%N.
Definition timer_segments : list N := [13; 12; 11; 10; 9; 8; 7; 6]%N.
Definition timer_state (display : list N) (curdigit : nat) : state :=
  mkState timer_digits timer_segments display curdigit 0%N.

(** The timer object before its constructor has run. *)
Definition timer_storage : state := zero_storage (tpl:=timer).

(** The timer showing 1234, the cursor on digit 2. *)
Definition timer_1234 : state :=
  timer_state [0x06; 0x5B; 0x4F; 0x66]%N 2.

(** The timer with a dash as its last digit. *)
Definition timer_dash : state :=
  timer_state [0; 0; 0; 0x40]%N 0.

(** What the sketch does after [begin], and some more. *)
Definition timer_session : list op :=
  [ OpSetValue 10 1234 false 2; OpShow; OpShow; OpIndexStore 0 0x86;
    OpShow; OpShow; OpShow; OpSetBlank true; OpShow;
    OpSetSegments 3 0x40 true; OpShow; OpSetNumber 1 10 true true;
    OpSetBlank false; OpBegin timer_digits timer_segments true;
    OpSetNumber 2 7 false true; OpShow ]%N.

Ltac timer_wf := split; [|split]; reflexivity.

(** ** Reading the display *)

(** The digit whose glyph a buffer entry shows, 0 for an entry that shows
    none; the decimal-point bit does not count. *)
Definition glyph_digit (c : N) : N :=
  match list_find (fun g => g = N.land c 0x7F) table with
  | Some (i, _) => N.of_nat i
  | None => 0%N
  end.

(** The number that the buffer shows to a reader, in base [radix]. *)
Definition read_number (radix : N) (cells : list N) : N :=
  fold_left (fun acc c => (acc * radix + glyph_digit c)%N) cells 0%N.

(** An event on one of the lines [pins]. *)
Definition touches (pins : list N) (e : event) : Prop :=
  match e with
  | PinModeOutput p | DigitalWrite p _ => p ∈ pins
  end.

(** The operations that set state and have no "show" override. *)
Definition quiet (o : op) : bool :=
  match o with
  | OpIndexStore _ _ | OpIndexLoad _ | OpIsBlank | OpSetValue _ _ _ _ => true
  | OpSetSegments _ _ sh | OpSetNumber _ _ _ sh => negb sh
  | OpBegin _ _ _ | OpShow | OpSetBlank _ => false
  end.

(** ** The sketch [examples/Timer/Timer.ino] *)

(** The global [display] and the statics of [loop]; [prevm] is [None]
    until the first call of [loop] has initialised it. *)
Record sketch : Type := mkSketch {
  display : state;
  prevm : option N;
  counter : N
}.

Section Timer.

(** The width of [unsigned], which depends on the board. *)
Variable uint_bits : N.

(** Arithmetic of [unsigned]. *)
Definition uint (x : N) : N := (x mod 2 ^ uint_bits)%N.
Definition uint_sub (a b : N) : N := uint (a + 2 ^ uint_bits - uint b).

(** The update of [counter] in [loop]: [counter++] and the step over the
    seconds 60 to 99, then the reset of a counter that is too big. *)
Definition bump (counter : N) : N :=
  let counter := uint (counter + 1) in
  if (counter mod 1000 =? 600)%N then uint (counter + 400) else counter.
Definition next_counter (counter : N) : N :=
  let counter := bump counter in
  if (counter =? 9999)%N then 0%N else counter.

(** The counter after [k] updates, from its initial value 0. *)
Fixpoint counter_after (k : nat) : N :=
  match k with
  | 0 => 0%N
  | S k' => next_counter (counter_after k')
  end.

Definition setup : M unit :=
  begin (tpl:=timer) timer_digits timer_segments false.

(** What [loop] does with the display when 100 ms have passed. *)
Definition refresh (counter : N) : M unit :=
  _ <- setValue (tpl:=timer) 10 counter false 2 ;;
  (if (1000 <=? counter)%N then
     x <- load (operator_index (tpl:=timer) 0) ;;
     store (operator_index (tpl:=timer) 0) (N.lor x 0x80)
   else ret tt).

(** [loop], with the two readings of [millis()] that it may take: [millis0]
    for the initialiser of [prevm] (in the first call only) and [millis1]
    for [m]. *)
Definition loop (millis0 millis1 : N) (k : sketch) : result (sketch * list event) :=
  let prevm := match prevm k with Some p => p | None => uint millis0 end in
  let m := uint millis1 in
  if (100 <? uint_sub m prevm)%N then
    let counter := next_counter (counter k) in
    match (refresh counter ;; show (tpl:=timer)) (display k) with
    | Ok (_, d, tr) => Ok (mkSketch d (Some m) counter, tr)
    | OutOfBounds => OutOfBounds
    end
  else
    match show (tpl:=timer) (display k) with
    | Ok (_, d, tr) => Ok (mkSketch d (Some prevm) (counter k), tr)
    | OutOfBounds => OutOfBounds
    end.

(** [loop] called again and again, with the readings of the clock. *)
Fixpoint loops (readings : list (N * N)) (k : sketch) : result (sketch * list event) :=
  match readings with
  | [] => Ok (k, [])
  | (millis0, millis1) :: readings' =>
      match loop millis0 millis1 k with
      | Ok (k1, t1) =>
          match loops readings' k1 with
          | Ok (k2, t2) => Ok (k2, t1 ++ t2)
          | OutOfBounds => OutOfBounds
          end
      | OutOfBounds => OutOfBounds
      end
  end.

(** The program: the constructor of the global, [setup], then [loop]
    for ever. *)
Definition sketch_run (readings : list (N * N)) : result (sketch * list event) :=
  match (Display7Seg (tpl:=timer) ;; setup) (zero_storage (tpl:=timer)) with
  | Ok (_, d, t0) =>
      match loops readings (mkSketch d None 0%N) with
      | Ok (k, t) => Ok (k, t0 ++ t)
      | OutOfBounds => OutOfBounds
      end
  | OutOfBounds => OutOfBounds
  end.

End Timer.

(** A display like the timer's, without decimal points. *)
Definition plain : Template :=
  {| numdigits := 4; havedp := false; digiton := true; segmenton := true |}.

(** The timer, blanked. *)
Definition timer_blanked : state := with_curdigit 4 timer_1234.

(** ** Vocabulary of the further properties *)

(** [s1] has the pin numbers and the cursor of [s], and a buffer of the
    same size. *)
Definition same_lines (s s1 : state) : Prop :=
  _digitpins s1 = _digitpins s /\ _segmentpins s1 = _segmentpins s /\
  _curdigit s1 = _curdigit s /\ length (_display s1) = length (_display s).

Definition is_write (e : event) : Prop :=
  match e with
  | DigitalWrite _ _ => True
  | PinModeOutput _ => False
  end.

Definition is_begin (o : op) : bool :=
  match o with
  | OpBegin _ _ _ => true
  | _ => false
  end.

(** Linear arithmetic with [/] and [mod] by constants. *)
Ltac euclid := zify; Z.to_euclidean_division_equations; lia.

(** * Facts *)

(** ** The monad *)

Lemma bind_Ok {A B} (m : M A) (f : A -> M B) s a s1 t1 :
  m s = Ok (a, s1, t1) ->
  bind m f s =
  match f a s1 with
  | Ok (b, s2, t2) => Ok (b, s2, t1 ++ t2)
  | OutOfBounds => OutOfBounds
  end.
Proof. intros H. unfold bind. rewrite H. reflexivity. Qed.

Lemma bind_inv {A B} (m : M A) (f : A -> M B) s b s2 t :
  bind m f s = Ok (b, s2, t) ->
  exists a s1 t1 t2,
    m s = Ok (a, s1, t1) /\ f a s1 = Ok (b, s2, t2) /\ t = t1 ++ t2.
Proof.
  unfold bind. destruct (m s) as [[[a s1] t1]|]; [|discriminate].
  destruct (f a s1) as [[[b' s2'] t2]|] eqn:Hf; [|discriminate].
  intros [= -> -> <-]. exists a, s1, t1, t2. auto.
Qed.

Lemma array_read_Some (l : list N) i x s :
  l !! i = Some x -> array_read l i s = Ok (x, s, []).
Proof. intros H. unfold array_read. rewrite H. reflexivity. Qed.

Lemma array_read_lt (l : list N) i s :
  i < length l -> array_read l i s = Ok (pin_of l i, s, []).
Proof.
  intros H. destruct (lookup_lt_is_Some_2 l i H) as [x Hx].
  unfold pin_of. rewrite Hx. simpl. apply array_read_Some, Hx.
Qed.

Lemma write_display_lt i x s :
  i < length (_display s) ->
  write_display i x s = Ok (tt, with_display (<[i := x]> (_display s)) s, []).
Proof.
  intros H. unfold write_display, array_write.
  apply Nat.ltb_lt in H. rewrite H. reflexivity.
Qed.

Lemma nat_to_byte_small c : c < 256 -> nat_to_byte c = c.
Proof. intros H. unfold nat_to_byte. apply Nat.mod_small, H. Qed.

Lemma to_byte_small x : (x < 256)%N -> to_byte x = x.
Proof. intros H. unfold to_byte. apply N.mod_small, H. Qed.

Lemma land_1_testbit (b : N) : negb (N.land b 1 =? 0)%N = N.testbit b 0.
Proof.
  change 1%N with (N.ones 1). rewrite N.land_ones, N.pow_1_r, <- N.bit0_mod.
  destruct (N.testbit b 0); reflexivity.
Qed.

Section Display7SegFacts.

Context {tpl : Template}.

(** ** [showDigit] *)

Lemma segment_loop_run (count : nat) : forall (i : nat) (b : N) (s : state),
  i + count <= length (_segmentpins s) ->
  segment_loop count i b s =
  Ok (tt, s, map (fun k => DigitalWrite (pin_of (_segmentpins s) (i + k))
                             (seg_level (N.testbit b (N.of_nat k))))
                 (seq 0 count)).
Proof.
  induction count as [|count IH]; intros i b s Hlen; simpl.
  - reflexivity.
  - unfold bind, read_segmentpins, digitalWrite.
    rewrite array_read_lt, IH by lia. simpl. do 3 f_equal.
    + rewrite Nat.add_0_r, land_1_testbit. reflexivity.
    + rewrite <- seq_shift, map_map. apply map_ext. intros k.
      rewrite N.shiftr_spec', Nat.add_succ_r. do 3 f_equal. lia.
Qed.

Lemma showDigit_run newdigit s :
  wf s ->
  showDigit newdigit s =
  Ok (tt, with_curdigit (nat_to_byte newdigit) s, showDigit_trace newdigit s).
Proof.
  intros (Hdp & Hsp & Hd).
  unfold showDigit, showDigit_trace, pattern_of, segment_writes.
  unfold bind at 1. unfold get_curdigit at 1.
  unfold bind at 1.
  assert (Hseg : forall b, segment_loop numsegments 0 b s =
                 Ok (tt, s, segment_writes (_segmentpins s) b)).
  { intros b. rewrite segment_loop_run by (simpl; lia). reflexivity. }
  destruct (Nat.ltb_spec (_curdigit s) numdigits) as [Hcur|Hcur];
    destruct (Nat.ltb_spec newdigit numdigits) as [Hnew|Hnew];
    destruct (Nat.eqb_spec newdigit (_curdigit s)) as [Heq|Hne]; simpl;
    unfold bind, read_digitpins, read_display, digitalWrite, ret, set_curdigit;
    repeat (first [rewrite array_read_lt by lia | rewrite Hseg]; simpl);
    rewrite ?app_nil_r; reflexivity.
Qed.

(** ** [setSegments] and [setNumber] *)

Lemma wf_with_display l s : wf s -> length l = numdigits -> wf (with_display l s).
Proof. intros (? & ? & ?) ?. repeat split; assumption. Qed.

Lemma wf_with_curdigit c s : wf s -> wf (with_curdigit c s).
Proof. intros H. exact H. Qed.

Lemma setSegments_out index bitmap sh s :
  numdigits <= index -> setSegments index bitmap sh s = Ok (tt, s, []).
Proof.
  intros H. unfold setSegments.
  destruct (Nat.ltb_spec index numdigits); [lia|reflexivity].
Qed.

Lemma setSegments_in index bitmap sh s :
  wf s -> index < numdigits ->
  let s1 := with_display (<[index := to_byte bitmap]> (_display s)) s in
  setSegments index bitmap sh s =
  if sh then Ok (tt, with_curdigit (nat_to_byte index) s1, showDigit_trace index s1)
  else Ok (tt, s1, []).
Proof.
  intros Hwf Hi s1. unfold setSegments.
  destruct (Nat.ltb_spec index numdigits); [|lia].
  erewrite bind_Ok by (apply write_display_lt; destruct Hwf as (_ & _ & ->); lia).
  fold s1. destruct sh; [|reflexivity].
  rewrite showDigit_run; [reflexivity|].
  apply wf_with_display; [assumption|].
  rewrite length_insert. apply Hwf.
Qed.

Lemma table_length : length table = 16.
Proof. reflexivity. Qed.

Lemma glyph_cell_lt d dp : (d < 16)%N -> is_Some (glyph_cell d dp).
Proof.
  intros H. unfold glyph_cell.
  destruct (lookup_lt_is_Some_2 table (N.to_nat d)) as [g ->]; [|eauto].
  rewrite table_length. lia.
Qed.

Lemma glyph_cell_byte d dp c : glyph_cell d dp = Some c -> to_byte c = c.
Proof.
  unfold glyph_cell. destruct (table !! N.to_nat d) as [g|] eqn:Hg; [|discriminate].
  intros [= <-]. apply list_elem_of_lookup_2 in Hg.
  unfold table in Hg. repeat (apply elem_of_cons in Hg as [->|Hg]);
    try (destruct dp; reflexivity).
  inversion Hg.
Qed.

Lemma setNumber_out_index index num dp sh s :
  numdigits <= index -> setNumber index num dp sh s = Ok (tt, s, []).
Proof.
  intros H. unfold setNumber.
  destruct (Nat.ltb_spec index numdigits); [lia|reflexivity].
Qed.

Lemma setNumber_out_num index num dp sh s :
  (16 < to_byte num)%N -> setNumber index num dp sh s = Ok (tt, s, []).
Proof.
  intros H. unfold setNumber.
  destruct (N.leb_spec (to_byte num) 16); [lia|].
  rewrite andb_false_r. reflexivity.
Qed.

Lemma setNumber_glyph index num dp sh s c :
  index < numdigits -> glyph_cell (to_byte num) dp = Some c ->
  setNumber index num dp sh s = setSegments index c sh s.
Proof.
  intros Hi Hc. unfold setNumber, glyph_cell in *.
  destruct (table !! N.to_nat (to_byte num)) as [g|] eqn:Hg; [|discriminate].
  injection Hc as <-.
  assert (N.to_nat (to_byte num) < 16)
    by (rewrite <- table_length; eapply lookup_lt_Some, Hg).
  destruct (Nat.ltb_spec index numdigits); [|lia].
  destruct (N.leb_spec (to_byte num) 16); [|lia]. simpl.
  erewrite bind_Ok by (apply array_read_Some, Hg).
  destruct (setSegments _ _ _ _) as [[[[] s2] t2]|]; reflexivity.
Qed.

Lemma setNumber_16 index num dp sh s :
  index < numdigits -> to_byte num = 16%N ->
  setNumber index num dp sh s = OutOfBounds.
Proof.
  intros Hi Hn. unfold setNumber. rewrite Hn.
  destruct (Nat.ltb_spec index numdigits); [|lia]. reflexivity.
Qed.

(** ** [setValue] *)

Lemma buffer_only_refl s : buffer_only s s.
Proof. split; [destruct s|]; reflexivity. Qed.

Lemma buffer_only_trans s1 s2 s3 :
  buffer_only s1 s2 -> buffer_only s2 s3 -> buffer_only s1 s3.
Proof.
  intros [H1 L1] [H2 L2]. split; [|congruence].
  rewrite H2 at 1. rewrite H1. reflexivity.
Qed.

Lemma buffer_only_wf s s' : buffer_only s s' -> wf s -> wf s'.
Proof.
  intros [H L] (? & ? & ?). rewrite H. repeat split; simpl; congruence.
Qed.

Lemma buffer_only_insert i x s :
  buffer_only s (with_display (<[i := x]> (_display s)) s).
Proof. split; simpl; [reflexivity|apply length_insert]. Qed.

Lemma pow_step (r : N) (n i : nat) :
  i < n -> (r ^ N.of_nat (n - i) = r ^ N.of_nat (n - S i) * r)%N.
Proof.
  intros H. replace (n - i) with (S (n - S i)) by lia.
  rewrite Nat2N.inj_succ, N.pow_succ_r'. apply N.mul_comm.
Qed.

Lemma higher_at_step radix V i :
  i < numdigits ->
  higher_at radix V i = (V / radix ^ N.of_nat (numdigits - S i) / radix)%N.
Proof.
  intros H. unfold higher_at. rewrite N.Div0.div_div, <- pow_step by lia.
  reflexivity.
Qed.

Lemma digit_at_step radix V i :
  digit_at radix V i = (V / radix ^ N.of_nat (numdigits - S i) mod radix)%N.
Proof. unfold digit_at. do 4 f_equal. lia. Qed.

Lemma zero_digits (r x : N) :
  (1 <= r)%N -> ((x mod r =? 0) && (x / r =? 0))%N = (x =? 0)%N.
Proof.
  intros Hr. destruct (N.eqb_spec x 0) as [->|Hx].
  - rewrite N.Div0.mod_0_l, N.Div0.div_0_l. reflexivity.
  - apply andb_false_iff.
    destruct (N.eqb_spec (x mod r) 0) as [Hm|]; [|auto].
    destruct (N.eqb_spec (x / r) 0) as [Hd|]; [|auto].
    exfalso. apply Hx. rewrite (N.div_mod x r) by lia. rewrite Hm, Hd. lia.
Qed.

(** One iteration of the loop of [setValue], at position [i]. *)
Lemma setValue_body radix V lz dppos i s :
  (1 <= radix <= 16)%N -> wf s -> i < numdigits ->
  let value := (V / radix ^ N.of_nat (numdigits - S i))%N in
  let v := to_byte (value mod radix) in
  exists x,
    setValue_cell radix V lz dppos i = Some x /\
    (if negb (v =? 0)%N || negb (value =? 0)%N || lz
        || (dppos <=? i) || (i =? numdigits - 1)
     then setNumber i v (dppos =? i) false
     else setSegments i (if dppos =? i then 0x80%N else 0%N) false) s =
    Ok (tt, with_display (<[i := x]> (_display s)) s, []).
Proof.
  intros Hr Hwf Hi value v.
  assert (Hlt : (value mod radix < 16)%N).
  { pose proof (N.mod_lt value radix). lia. }
  assert (Hv : v = (value mod radix)%N).
  { apply to_byte_small. lia. }
  unfold setValue_cell. rewrite higher_at_step, digit_at_step by lia.
  fold value. rewrite zero_digits by lia. rewrite Hv.
  replace (i <? dppos) with (negb (dppos <=? i))
    by (destruct (Nat.leb_spec dppos i), (Nat.ltb_spec i dppos); simpl; lia).
  destruct (N.eqb_spec value 0) as [Hz|Hz].
  - rewrite Hz, N.Div0.mod_0_l. simpl.
    destruct lz, (dppos <=? i), (i =? numdigits - 1); simpl.
    all: try (destruct (glyph_cell_lt 0 (dppos =? i)) as [c Hc]; [lia|];
              exists c; split; [exact Hc|];
              erewrite setNumber_glyph by (try exact Hi; exact Hc);
              rewrite (setSegments_in i c false s Hwf Hi); simpl;
              rewrite (glyph_cell_byte _ _ _ Hc); reflexivity).
    eexists. split; [reflexivity|].
    rewrite (setSegments_in i _ false s Hwf Hi). simpl.
    destruct (dppos =? i); reflexivity.
  - replace (negb ((value mod radix =? 0)%N) || negb false || lz
             || (dppos <=? i) || (i =? numdigits - 1)) with true
      by (destruct (value mod radix =? 0)%N; reflexivity).
    simpl.
    destruct (glyph_cell_lt (value mod radix) (dppos =? i)) as [c Hc]; [lia|].
    exists c. split; [exact Hc|].
    erewrite setNumber_glyph;
      [|exact Hi|rewrite to_byte_small by lia; exact Hc].
    rewrite (setSegments_in i c false s Hwf Hi). simpl.
    rewrite (glyph_cell_byte _ _ _ Hc). reflexivity.
Qed.

Lemma setValue_loop_run radix V lz dppos :
  (1 <= radix <= 16)%N ->
  forall i s, wf s -> i <= numdigits ->
  exists s',
    setValue_loop radix lz dppos i (V / radix ^ N.of_nat (numdigits - i))%N s =
      Ok ((V / radix ^ N.of_nat numdigits)%N, s', []) /\
    buffer_only s s' /\
    (forall j, i <= j -> _display s' !! j = _display s !! j) /\
    (forall j, j < i -> _display s' !! j = setValue_cell radix V lz dppos j).
Proof.
  intros Hr. induction i as [|i IH]; intros s Hwf Hi.
  - exists s. simpl. rewrite Nat.sub_0_r. unfold ret.
    split; [reflexivity|]. split; [apply buffer_only_refl|].
    split; [reflexivity|]. intros j Hj. lia.
  - destruct (setValue_body radix V lz dppos i s Hr Hwf) as (x & Hx & Hbody); [lia|].
    set (s1 := with_display (<[i := x]> (_display s)) s) in *.
    assert (Hwf1 : wf s1) by (eapply buffer_only_wf; [apply buffer_only_insert|exact Hwf]).
    destruct (IH s1 Hwf1) as (s' & Hloop & Hbuf & Hhigh & Hlow); [lia|].
    exists s'. cbn [setValue_loop]. 
    erewrite bind_Ok by exact Hbody.
    rewrite <- higher_at_step by lia. unfold higher_at. rewrite Hloop.
    split; [reflexivity|].
    split; [eapply buffer_only_trans; [apply buffer_only_insert|exact Hbuf]|].
    split.
    + intros j Hj. rewrite Hhigh by lia. simpl.
      apply list_lookup_insert_ne. lia.
    + intros j Hj. destruct (Nat.eq_dec j i) as [->|Hne]; [|apply Hlow; lia].
      rewrite Hhigh by lia. simpl. rewrite Hx.
      apply list_lookup_insert_eq. destruct Hwf as (_ & _ & ->). lia.
Qed.

Lemma setSegments_noshow index bitmap s :
  wf s ->
  exists s', setSegments index bitmap false s = Ok (tt, s', []) /\ buffer_only s s'.
Proof.
  intros Hwf. destruct (Nat.lt_ge_cases index numdigits) as [Hi|Hi].
  - rewrite (setSegments_in index bitmap false s Hwf Hi).
    eexists. split; [reflexivity|apply buffer_only_insert].
  - rewrite setSegments_out by exact Hi.
    eexists. split; [reflexivity|apply buffer_only_refl].
Qed.

Lemma setNumber_noshow index num dp s u s' tr :
  wf s -> setNumber index num dp false s = Ok (u, s', tr) ->
  tr = [] /\ buffer_only s s'.
Proof.
  intros Hwf. unfold setNumber.
  destruct ((index <? numdigits) && (to_byte num <=? 16)%N).
  - intros H. apply bind_inv in H as (g & s1 & t1 & t2 & Hread & Hset & ->).
    unfold array_read in Hread.
    destruct (table !! _); [|discriminate]. simplify_eq.
    destruct (setSegments_noshow index (N.lor g (if dp then 128 else 0)) s1 Hwf)
      as (s2 & Hs2 & Hbuf).
    rewrite Hs2 in Hset. simplify_eq. auto.
  - intros [= <- <- <-]. split; [reflexivity|apply buffer_only_refl].
Qed.

Lemma setValue_loop_frame radix lz dppos i :
  forall value s v' s' tr,
  wf s ->
  setValue_loop radix lz dppos i value s = Ok (v', s', tr) ->
  tr = [] /\ buffer_only s s' /\ v' = (value / radix ^ N.of_nat i)%N.
Proof.
  induction i as [|i IH]; intros value s v' s' tr Hwf; cbn [setValue_loop].
  - intros [= <- <- <-]. split; [reflexivity|]. split; [apply buffer_only_refl|].
    simpl. symmetry. apply N.div_1_r.
  - intros H. apply bind_inv in H as ([] & s1 & t1 & t2 & Hbody & Hrest & ->).
    assert (Hb : t1 = [] /\ buffer_only s s1).
    { destruct (_ || _) in Hbody.
      - eapply setNumber_noshow; eassumption.
      - destruct (setSegments_noshow i (if dppos =? i then 128%N else 0%N) s Hwf)
          as (s2 & Hs2 & Hbuf).
        rewrite Hs2 in Hbody. simplify_eq. auto. }
    destruct Hb as [-> Hb1].
    apply IH in Hrest as (-> & Hb2 & ->); [|eapply buffer_only_wf; eassumption].
    split; [reflexivity|]. split; [eapply buffer_only_trans; eassumption|].
    rewrite N.Div0.div_div, Nat2N.inj_succ, N.pow_succ_r'. reflexivity.
Qed.

(** ** [show], [setBlank] and [isBlank] *)

Lemma next_digit_mod cur :
  cur < numdigits ->
  (if numdigits <=? cur + 1 then 0 else cur + 1) = (cur + 1) mod numdigits.
Proof.
  intros H. destruct (Nat.leb_spec numdigits (cur + 1)).
  - replace (cur + 1) with numdigits by lia. symmetry. apply Nat.Div0.mod_same.
  - symmetry. apply Nat.mod_small. lia.
Qed.

Lemma show_blank s : numdigits <= _curdigit s -> show s = Ok (tt, s, []).
Proof.
  intros H. unfold show, bind, get_curdigit.
  destruct (Nat.ltb_spec (_curdigit s) numdigits); [lia|reflexivity].
Qed.

Lemma show_next s :
  _curdigit s < numdigits ->
  show s = showDigit ((_curdigit s + 1) mod numdigits) s.
Proof.
  intros H. unfold show, bind, get_curdigit.
  destruct (Nat.ltb_spec (_curdigit s) numdigits); [|lia].
  rewrite next_digit_mod by exact H.
  destruct (showDigit _ s) as [[[[] s2] t2]|]; reflexivity.
Qed.

Lemma isBlank_run s : isBlank s = Ok (numdigits <=? _curdigit s, s, []).
Proof. reflexivity. Qed.

(** ** The constructor and [begin] *)

Lemma clear_loop_run count : forall i s,
  i + count = length (_display s) ->
  for_upto count i (fun i => write_display i 0%N) s =
  Ok (tt, with_display (take i (_display s) ++ repeat 0%N count) s, []).
Proof.
  induction count as [|count IH]; intros i s Hlen; cbn [for_upto].
  - unfold ret. simpl. rewrite app_nil_r, take_ge by lia.
    destruct s; reflexivity.
  - erewrite bind_Ok by (apply write_display_lt; lia).
    rewrite IH by (simpl; rewrite length_insert; lia). simpl.
    do 3 f_equal.
    rewrite (take_S_r _ _ 0%N) by (apply list_lookup_insert_eq; lia).
    rewrite take_insert_ge by lia. rewrite <- app_assoc. reflexivity.
Qed.

Lemma Display7Seg_run s :
  wf s -> Display7Seg s = Ok (tt, with_display (repeat 0%N numdigits) s, []).
Proof.
  intros (_ & _ & Hd). unfold Display7Seg.
  rewrite clear_loop_run by (rewrite Hd; reflexivity). reflexivity.
Qed.

(** Either loop of [begin]: it copies the pin numbers [src] into the
    member array and initialises each of the lines. *)
Lemma copy_loop_run (get : state -> list N) (set : list N -> state -> state)
    (off : bool) (src : list N) :
  (forall l s, get (set l s) = l) ->
  (forall l l' s, set l (set l' s) = set l s) ->
  (forall s, set (get s) s = s) ->
  forall count i s,
  i + count = length src -> length (get s) = length src ->
  take i (get s) = take i src ->
  for_upto count i (fun i =>
    p <- array_read src i ;;
    array_write get set i p ;;
    pinMode p ;;
    digitalWrite p off) s =
  Ok (tt, set src s, init_trace off (drop i src)).
Proof.
  intros Hgs Hss Hid. induction count as [|count IH]; intros i s Hi Hlen Htake;
    cbn [for_upto].
  - rewrite !take_ge in Htake by lia. rewrite drop_ge by lia.
    rewrite <- Htake, Hid. reflexivity.
  - destruct (lookup_lt_is_Some_2 src i) as [p Hp]; [lia|].
    erewrite bind_Ok; [|erewrite bind_Ok by (apply array_read_Some, Hp)].
    2:{ unfold bind, array_write, pinMode, digitalWrite.
        destruct (Nat.ltb_spec i (length (get s))); [|lia]. reflexivity. }
    rewrite IH.
    + rewrite Hss, (drop_S _ _ _ Hp). reflexivity.
    + lia.
    + rewrite Hgs, length_insert. exact Hlen.
    + rewrite Hgs, (take_S_r _ _ p) by (apply list_lookup_insert_eq; lia).
      rewrite take_insert_ge, Htake by lia. symmetry. apply take_S_r, Hp.
Qed.

Lemma begin_run dps sps (blank : bool) s :
  wf s -> length dps = numdigits -> length sps = numsegments ->
  let s2 := with_segmentpins sps (with_digitpins dps s) in
  let newdigit := if blank then numdigits else 0 in
  begin dps sps blank s =
  Ok (tt, with_curdigit (nat_to_byte newdigit) s2,
      init_trace (negb digiton) dps ++ init_trace (negb segmenton) sps
      ++ showDigit_trace newdigit s2).
Proof.
  intros (Hdp & Hsp & Hd) Hdps Hsps s2 newdigit. unfold begin.
  erewrite bind_Ok.
  2:{ apply (copy_loop_run _digitpins with_digitpins); try reflexivity.
      - intros []; reflexivity.
      - simpl; lia.
      - congruence. }
  erewrite bind_Ok.
  2:{ apply (copy_loop_run _segmentpins with_segmentpins); try reflexivity.
      - intros []; reflexivity.
      - simpl; lia.
      - simpl; congruence. }
  fold s2. unfold setBlank. fold newdigit.
  rewrite showDigit_run by (repeat split; simpl; assumption).
  rewrite !drop_0. reflexivity.
Qed.

(** ** Line levels along a trace *)

Lemma replay_app t1 t2 lv : replay (t1 ++ t2) lv = replay t2 (replay t1 lv).
Proof. apply fold_left_app. Qed.

Lemma always_app P t1 : forall lv t2,
  always P lv (t1 ++ t2) <-> always P lv t1 /\ always P (replay t1 lv) t2.
Proof.
  induction t1 as [|e t1 IH]; intros lv t2; simpl.
  - split; [|tauto]. intros H. split; [|exact H].
    destruct t2; simpl in H; tauto.
  - rewrite IH. tauto.
Qed.

Lemma only_active_exclusive dps lv a : only_active dps lv a -> exclusive dps lv.
Proof.
  intros H p q Hp Hq Ap Aq.
  pose proof (H p Hp Ap). pose proof (H q Hq Aq). congruence.
Qed.

Lemma only_active_None dps lv a : only_active dps lv None -> only_active dps lv a.
Proof. intros H p Hp Ap. discriminate (H p Hp Ap). Qed.

Lemma calm_event_shrinks dps e lv p :
  calm_event dps e -> p ∈ dps ->
  driven_active (apply_event lv e) p -> driven_active lv p.
Proof.
  destruct e as [q|q l]; simpl; [auto|]. intros Hcalm Hp.
  unfold driven_active. destruct (decide (q = p)) as [->|Hne].
  - rewrite lookup_insert_eq. intros [= ->]. specialize (Hcalm Hp).
    destruct digiton; discriminate.
  - rewrite lookup_insert_ne by exact Hne. auto.
Qed.

Lemma calm_shrinks dps tr : forall lv p,
  Forall (calm_event dps) tr -> p ∈ dps ->
  driven_active (replay tr lv) p -> driven_active lv p.
Proof.
  induction tr as [|e tr IH]; intros lv p Hcalm Hp; simpl; [auto|].
  apply Forall_cons in Hcalm as [He Htr]. intros Ap.
  eapply calm_event_shrinks; [eassumption..|]. eapply IH; eassumption.
Qed.

Lemma calm_only_active dps tr lv a :
  Forall (calm_event dps) tr -> only_active dps lv a ->
  only_active dps (replay tr lv) a.
Proof. intros Hcalm H p Hp Ap. eapply H, calm_shrinks; eassumption. Qed.

Lemma calm_exclusive dps tr : forall lv,
  Forall (calm_event dps) tr -> exclusive dps lv ->
  always (exclusive dps) lv tr.
Proof.
  induction tr as [|e tr IH]; intros lv Hcalm Hex; simpl; [exact Hex|].
  apply Forall_cons in Hcalm as [He Htr]. split; [exact Hex|].
  apply IH; [assumption|].
  intros p q Hp Hq Ap Aq.
  apply Hex; try assumption; eapply calm_event_shrinks; eassumption.
Qed.

Lemma switched_off dps tr p lv :
  Forall (calm_event dps) tr -> p ∈ dps ->
  DigitalWrite p (negb digiton) ∈ tr ->
  ~ driven_active (replay tr lv) p.
Proof.
  intros Hcalm Hp Hin.
  apply list_elem_of_split in Hin as (t1 & t2 & ->).
  apply Forall_app in Hcalm as [_ Hcalm].
  apply Forall_cons in Hcalm as [_ Hcalm].
  rewrite replay_app. simpl. intros Ap.
  apply (calm_shrinks dps) in Ap; [|assumption..].
  unfold driven_active in Ap. rewrite lookup_insert_eq in Ap.
  destruct digiton; discriminate.
Qed.

Lemma switch_on dps lv q :
  only_active dps lv (Some q) ->
  only_active dps (<[q := digiton]> lv) (Some q).
Proof.
  intros H p Hp. unfold driven_active.
  destruct (decide (q = p)) as [->|Hne]; [reflexivity|].
  rewrite lookup_insert_ne by exact Hne. apply H, Hp.
Qed.

Lemma switch_off dps lv q :
  only_active dps lv (Some q) ->
  only_active dps (<[q := negb digiton]> lv) None.
Proof.
  intros H p Hp. unfold driven_active.
  destruct (decide (q = p)) as [->|Hne].
  - rewrite lookup_insert_eq. destruct digiton; discriminate.
  - rewrite lookup_insert_ne by exact Hne. intros Ap.
    specialize (H p Hp Ap). congruence.
Qed.

Lemma pin_of_lookup (pins : list N) k : k < length pins -> pins !! k = Some (pin_of pins k).
Proof.
  intros H. destruct (lookup_lt_is_Some_2 pins k H) as [x Hx].
  unfold pin_of. rewrite Hx. reflexivity.
Qed.

Lemma segment_writes_calm dps sps b :
  separate dps sps -> length sps = numsegments ->
  Forall (calm_event dps) (segment_writes sps b).
Proof.
  intros Hsep Hlen. unfold segment_writes. apply Forall_fmap, Forall_forall.
  intros k Hk. apply elem_of_seq in Hk. simpl. intros Hin. exfalso.
  apply (Hsep _ Hin). eapply list_elem_of_lookup_2, pin_of_lookup. lia.
Qed.

Lemma init_trace_calm dps pins off :
  (forall p, p ∈ pins -> p ∈ dps -> off = negb digiton) ->
  Forall (calm_event dps) (init_trace off pins).
Proof.
  intros H. unfold init_trace. induction pins as [|p pins IH]; simpl.
  - constructor.
  - constructor; [exact I|]. constructor.
    + simpl. apply H. left.
    + apply IH. intros q Hq. apply H. right. exact Hq.
Qed.

Lemma init_trace_off pins off p :
  p ∈ pins -> DigitalWrite p off ∈ init_trace off pins.
Proof.
  intros H. unfold init_trace. induction H as [p pins|p q pins H IH]; simpl.
  - right. left.
  - right. right. exact IH.
Qed.

(** ** Digit-select lines are switched break-before-make *)

Lemma showDigit_safe dps sps newdigit s lv :
  numdigits <= 256 -> length dps = numdigits -> length sps = numsegments ->
  separate dps sps -> coherent dps sps s lv ->
  always (exclusive dps) lv (showDigit_trace newdigit s) /\
  coherent dps sps (with_curdigit (nat_to_byte newdigit) s)
           (replay (showDigit_trace newdigit s) lv).
Proof.
  intros Hn Hdl Hsl Hsep (Hdp & Hsp & Hact).
  unfold coherent. simpl. rewrite Hdp, Hsp. 
  assert (Hcalm := fun b => segment_writes_calm dps sps b Hsep Hsl).
  unfold showDigit_trace. rewrite Hdp, Hsp.
  set (segs := segment_writes sps (pattern_of s newdigit)) in *.
  assert (Hsegs : Forall (calm_event dps) segs) by apply Hcalm.
  set (off := DigitalWrite (pin_of dps (_curdigit s)) (negb digiton)).
  assert (Hoff : calm_event dps off) by (intros _; reflexivity).
  (* the levels after the first part: what may still be active *)
  set (t1 := if _curdigit s <? numdigits
             then (if newdigit =? _curdigit s then [] else [off]) ++ segs
             else []).
  assert (Ht1 : Forall (calm_event dps) t1).
  { unfold t1. destruct (_ <? _); [|constructor].
    destruct (_ =? _); simpl; [assumption|]. constructor; assumption. }
  assert (Hex : exclusive dps lv) by (eapply only_active_exclusive, Hact).
  assert (Hmid : newdigit < numdigits ->
            only_active dps (replay t1 lv) (Some (pin_of dps newdigit))).
  { intros Hnew. unfold t1.
    destruct (Nat.ltb_spec (_curdigit s) numdigits) as [Hcur|Hcur].
    - destruct (Nat.eqb_spec newdigit (_curdigit s)) as [->|Hne]; simpl.
      + apply calm_only_active; [assumption|].
        rewrite <- pin_of_lookup by lia. exact Hact.
      + apply calm_only_active; [assumption|]. apply only_active_None.
        apply switch_off. rewrite <- pin_of_lookup by lia. exact Hact.
    - simpl. apply only_active_None, Hact. }
  assert (Hblank : numdigits <= newdigit -> only_active dps (replay t1 lv) None).
  { intros Hnew. unfold t1.
    destruct (Nat.ltb_spec (_curdigit s) numdigits) as [Hcur|Hcur].
    - destruct (Nat.eqb_spec newdigit (_curdigit s)) as [->|Hne]; [lia|]. simpl.
      apply calm_only_active; [assumption|].
      apply switch_off. rewrite <- pin_of_lookup by lia. exact Hact.
    - simpl. exact Hact. }
  rewrite always_app, replay_app. split; [split|].
  - apply calm_exclusive; assumption.
  - destruct (Nat.ltb_spec newdigit numdigits) as [Hnew|Hnew]; simpl.
    + split; [eapply only_active_exclusive, Hmid, Hnew|].
      eapply only_active_exclusive, switch_on, Hmid, Hnew.
    + eapply only_active_exclusive, Hblank, Hnew.
  - split; [reflexivity|]. split; [reflexivity|].
    destruct (Nat.ltb_spec newdigit numdigits) as [Hnew|Hnew]; simpl.
    + rewrite nat_to_byte_small by lia.
      destruct (Nat.ltb_spec newdigit numdigits); [|lia].
      rewrite pin_of_lookup by lia. apply switch_on, Hmid, Hnew.
    + apply only_active_None, Hblank, Hnew.
Qed.

Lemma coherent_same dps sps s s' lv :
  _digitpins s' = _digitpins s -> _segmentpins s' = _segmentpins s ->
  _curdigit s' = _curdigit s ->
  coherent dps sps s lv -> coherent dps sps s' lv.
Proof. unfold coherent. intros -> -> ->. auto. Qed.

Lemma coherent_buffer_only dps sps s s' lv :
  buffer_only s s' -> coherent dps sps s lv -> coherent dps sps s' lv.
Proof. intros [-> _]. apply coherent_same; reflexivity. Qed.

Lemma coherent_exclusive dps sps s lv : coherent dps sps s lv -> exclusive dps lv.
Proof. intros (_ & _ & H). eapply only_active_exclusive, H. Qed.

Lemma begin_safe dps sps blank s lv s' tr :
  numdigits <= 256 -> length dps = numdigits -> length sps = numsegments ->
  separate dps sps -> wf s -> exclusive dps lv ->
  begin dps sps blank s = Ok (tt, s', tr) ->
  always (exclusive dps) lv tr /\ coherent dps sps s' (replay tr lv) /\ wf s'.
Proof.
  intros Hn Hdl Hsl Hsep Hwf Hex.
  rewrite begin_run by assumption. intros [= <- <-].
  set (s2 := with_segmentpins sps (with_digitpins dps s)).
  set (newdigit := if blank then numdigits else 0).
  assert (Hc1 : Forall (calm_event dps) (init_trace (negb digiton) dps)).
  { apply init_trace_calm. reflexivity. }
  assert (Hc2 : Forall (calm_event dps) (init_trace (negb segmenton) sps)).
  { apply init_trace_calm. intros p Hp Hq. destruct (Hsep p Hq Hp). }
  set (lv1 := replay (init_trace (negb digiton) dps) lv).
  assert (Hoff : only_active dps lv1 None).
  { intros p Hp Ap. exfalso.
    refine (switched_off dps _ p lv Hc1 Hp _ Ap). apply init_trace_off, Hp. }
  set (lv2 := replay (init_trace (negb segmenton) sps) lv1).
  assert (Hoff2 : only_active dps lv2 None) by (apply calm_only_active; assumption).
  destruct (showDigit_safe dps sps newdigit s2 lv2) as [Hal Hco]; try assumption.
  { split; [reflexivity|]. split; [reflexivity|]. apply only_active_None, Hoff2. }
  rewrite !always_app, !replay_app. fold lv1 lv2.
  split; [|split].
  - split; [apply calm_exclusive; assumption|]. split; [|exact Hal].
    apply calm_exclusive; [assumption|]. eapply only_active_exclusive, Hoff.
  - exact Hco.
  - destruct Hwf as (? & ? & ?). repeat split; simpl; assumption.
Qed.

Lemma showDigit_exec_safe dps sps newdigit s lv s' tr :
  numdigits <= 256 -> length dps = numdigits -> length sps = numsegments ->
  separate dps sps -> wf s -> coherent dps sps s lv ->
  showDigit newdigit s = Ok (tt, s', tr) ->
  always (exclusive dps) lv tr /\ coherent dps sps s' (replay tr lv) /\ wf s'.
Proof.
  intros Hn Hdl Hsl Hsep Hwf Hco. rewrite showDigit_run by assumption.
  intros [= <- <-].
  destruct (showDigit_safe dps sps newdigit s lv) as [Hal Hco']; try assumption.
  auto using wf_with_curdigit.
Qed.

Lemma silent_safe dps sps s s' lv :
  wf s -> coherent dps sps s lv -> buffer_only s s' ->
  always (exclusive dps) lv [] /\ coherent dps sps s' (replay [] lv) /\ wf s'.
Proof.
  intros Hwf Hco Hbuf. split; [|split].
  - simpl. eapply coherent_exclusive, Hco.
  - eapply coherent_buffer_only; eassumption.
  - eapply buffer_only_wf; eassumption.
Qed.

Lemma setSegments_safe dps sps index bitmap sh s lv s' tr :
  numdigits <= 256 -> length dps = numdigits -> length sps = numsegments ->
  separate dps sps -> wf s -> coherent dps sps s lv ->
  setSegments index bitmap sh s = Ok (tt, s', tr) ->
  always (exclusive dps) lv tr /\ coherent dps sps s' (replay tr lv) /\ wf s'.
Proof.
  intros Hn Hdl Hsl Hsep Hwf Hco.
  destruct (Nat.lt_ge_cases index numdigits) as [Hi|Hi].
  - rewrite (setSegments_in index bitmap sh s Hwf Hi).
    set (s1 := with_display _ s).
    assert (Hb1 : buffer_only s s1) by apply buffer_only_insert.
    destruct sh; intros [= <- <-].
    + destruct (showDigit_safe dps sps index s1 lv) as [Hal Hco'];
        [assumption..|eapply coherent_buffer_only; eassumption|].
      split; [exact Hal|]. split; [exact Hco'|].
      eapply wf_with_curdigit, buffer_only_wf; eassumption.
    + apply (silent_safe dps sps s); assumption.
  - rewrite setSegments_out by exact Hi. intros [= <- <-].
    apply (silent_safe dps sps s); [assumption..|apply buffer_only_refl].
Qed.

Lemma exec_safe dps sps o s lv s' tr :
  numdigits <= 256 -> length dps = numdigits -> length sps = numsegments ->
  separate dps sps -> same_binding dps sps o ->
  wf s -> coherent dps sps s lv ->
  exec o s = Ok (tt, s', tr) ->
  always (exclusive dps) lv tr /\ coherent dps sps s' (replay tr lv) /\ wf s'.
Proof.
  intros Hn Hdl Hsl Hsep Hsame Hwf Hco.
  destruct o as [dps' sps' blank| |index x|index|onoff| |index bitmap sh
                |index num dp sh|radix value lz dppos]; cbn [exec].
  - destruct Hsame as [-> ->].
    apply begin_safe; try assumption. eapply coherent_exclusive, Hco.
  - destruct (Nat.lt_ge_cases (_curdigit s) numdigits) as [Hc|Hc].
    + rewrite show_next by exact Hc. apply showDigit_exec_safe; assumption.
    + rewrite show_blank by exact Hc. intros [= <- <-].
      apply (silent_safe dps sps s); [assumption..|apply buffer_only_refl].
  - unfold operator_index.
    destruct (Nat.ltb_spec index numdigits) as [Hi|Hi]; simpl.
    + rewrite write_display_lt by (destruct Hwf as (_ & _ & ->); exact Hi).
      intros [= <- <-]. apply (silent_safe dps sps s); [assumption..|apply buffer_only_insert].
    + intros [= <- <-]. split; [|split].
      * simpl. eapply coherent_exclusive, Hco.
      * revert Hco. apply coherent_same; reflexivity.
      * exact Hwf.
  - unfold discard. intros H.
    apply bind_inv in H as (x & s1 & t1 & t2 & Hload & Hret & ->).
    injection Hret as <- <-.
    assert (s1 = s /\ t1 = []) as [-> ->].
    { unfold operator_index in Hload.
      destruct (index <? numdigits); simpl in Hload.
      - unfold read_display, array_read in Hload.
        destruct (_ !! _); [|discriminate]. simplify_eq. auto.
      - simplify_eq. auto. }
    apply (silent_safe dps sps s); [assumption..|apply buffer_only_refl].
  - apply showDigit_exec_safe; assumption.
  - intros [= <- <-]. apply (silent_safe dps sps s); [assumption..|apply buffer_only_refl].
  - apply setSegments_safe; assumption.
  - destruct (Nat.lt_ge_cases index numdigits) as [Hi|Hi].
    2:{ rewrite setNumber_out_index by exact Hi. intros [= <- <-].
        apply (silent_safe dps sps s); [assumption..|apply buffer_only_refl]. }
    destruct (N.lt_total (to_byte num) 16) as [Hnum|[Hnum|Hnum]].
    + destruct (glyph_cell_lt (to_byte num) dp Hnum) as [c Hc].
      rewrite (setNumber_glyph index num dp sh s c Hi Hc).
      apply setSegments_safe; assumption.
    + rewrite setNumber_16 by assumption. discriminate.
    + rewrite setNumber_out_num by exact Hnum. intros [= <- <-].
      apply (silent_safe dps sps s); [assumption..|apply buffer_only_refl].
  - unfold discard, setValue. intros H.
    apply bind_inv in H as (r & s1 & t1 & t2 & Hset & Hret & ->).
    injection Hret as <- <-.
    apply bind_inv in Hset as (v & s2 & t3 & t4 & Hloop & Hret & ->).
    injection Hret as _ <- <-.
    apply setValue_loop_frame in Hloop as (-> & Hbuf & _); [|exact Hwf].
    apply (silent_safe dps sps s); assumption.
Qed.

Lemma run_safe dps sps ops : forall s lv s' tr,
  numdigits <= 256 -> length dps = numdigits -> length sps = numsegments ->
  separate dps sps -> Forall (same_binding dps sps) ops ->
  wf s -> coherent dps sps s lv ->
  run ops s = Ok (tt, s', tr) ->
  always (exclusive dps) lv tr.
Proof.
  induction ops as [|o ops IH]; intros s lv s' tr Hn Hdl Hsl Hsep Hsame Hwf Hco;
    cbn [run].
  - intros [= <- <-]. simpl. eapply coherent_exclusive, Hco.
  - apply Forall_cons in Hsame as [Ho Hops]. intros H.
    apply bind_inv in H as ([] & s1 & t1 & t2 & Hexec & Hrun & ->).
    destruct (exec_safe dps sps o s lv s1 t1) as (Hal & Hco1 & Hwf1); try assumption.
    rewrite always_app. split; [exact Hal|].
    eapply IH; eassumption.
Qed.

(** ** The cursor *)

Lemma showDigit_cursor newdigit s u s' tr :
  showDigit newdigit s = Ok (u, s', tr) -> _curdigit s' = nat_to_byte newdigit.
Proof.
  unfold showDigit. intros H.
  apply bind_inv in H as (cur & s1 & t1 & t2 & _ & H & _).
  apply bind_inv in H as (? & s2 & ? & ? & _ & H & _).
  apply bind_inv in H as (? & s3 & ? & ? & _ & H & _).
  unfold set_curdigit in H. simplify_eq. reflexivity.
Qed.

Lemma nat_to_byte_le c : nat_to_byte c <= c.
Proof. unfold nat_to_byte. apply Nat.Div0.mod_le. Qed.

Lemma exec_cursor o s s' tr :
  wf s -> exec o s = Ok (tt, s', tr) ->
  _curdigit s' = _curdigit s \/
  exists newdigit, newdigit <= numdigits /\ _curdigit s' = nat_to_byte newdigit.
Proof.
  intros Hwf.
  assert (Hset : forall index bitmap sh s1 t1,
            setSegments index bitmap sh s = Ok (tt, s1, t1) ->
            _curdigit s1 = _curdigit s \/
            exists newdigit, newdigit <= numdigits /\ _curdigit s1 = nat_to_byte newdigit).
  { intros index bitmap sh s1 t1.
    destruct (Nat.lt_ge_cases index numdigits) as [Hi|Hi].
    - rewrite (setSegments_in index bitmap sh s Hwf Hi).
      destruct sh; intros [= <- <-]; simpl; [|auto].
      right. exists index. split; [lia|reflexivity].
    - rewrite setSegments_out by exact Hi. intros [= <- <-]. auto. }
  destruct o as [dps' sps' blank| |index x|index|onoff| |index bitmap sh
                |index num dp sh|radix value lz dppos]; cbn [exec].
  - unfold begin. intros H.
    apply bind_inv in H as (? & s1 & ? & ? & _ & H & _).
    apply bind_inv in H as (? & s2 & ? & ? & _ & H & _).
    apply showDigit_cursor in H. right.
    exists (if blank then numdigits else 0). split; [destruct blank; lia|exact H].
  - destruct (Nat.lt_ge_cases (_curdigit s) numdigits) as [Hc|Hc].
    + rewrite show_next by exact Hc. intros H. apply showDigit_cursor in H.
      right. eexists. split; [|exact H].
      apply Nat.lt_le_incl, Nat.mod_upper_bound. lia.
    + rewrite show_blank by exact Hc. intros [= <- <-]. auto.
  - unfold operator_index.
    destruct (Nat.ltb_spec index numdigits) as [Hi|Hi]; simpl.
    + rewrite write_display_lt by (destruct Hwf as (_ & _ & ->); exact Hi).
      intros [= <- <-]. auto.
    + intros [= <- <-]. auto.
  - unfold discard. intros H.
    apply bind_inv in H as (x & s1 & t1 & t2 & Hload & Hret & ->).
    injection Hret as <- <-. left. f_equal.
    unfold operator_index in Hload.
    destruct (index <? numdigits); simpl in Hload.
    + unfold read_display, array_read in Hload.
      destruct (_ !! _); [|discriminate]. simplify_eq. reflexivity.
    + simplify_eq. reflexivity.
  - intros H. apply showDigit_cursor in H. right.
    exists (if onoff then numdigits else 0). split; [destruct onoff; lia|exact H].
  - intros [= <- <-]. auto.
  - apply Hset.
  - destruct (Nat.lt_ge_cases index numdigits) as [Hi|Hi].
    2:{ rewrite setNumber_out_index by exact Hi. intros [= <- <-]. auto. }
    destruct (N.lt_total (to_byte num) 16) as [Hnum|[Hnum|Hnum]].
    + destruct (glyph_cell_lt (to_byte num) dp Hnum) as [c Hc].
      rewrite (setNumber_glyph index num dp sh s c Hi Hc). apply Hset.
    + rewrite setNumber_16 by assumption. discriminate.
    + rewrite setNumber_out_num by exact Hnum. intros [= <- <-]. auto.
  - unfold discard, setValue. intros H.
    apply bind_inv in H as (r & s1 & t1 & t2 & Hval & Hret & ->).
    injection Hret as <- <-.
    apply bind_inv in Hval as (v & s2 & t3 & t4 & Hloop & Hret & ->).
    injection Hret as _ <- <-.
    apply setValue_loop_frame in Hloop as (_ & [-> _] & _); [|exact Hwf].
    auto.
Qed.

(** ** Cycling through the digits *)

Lemma show_step s :
  wf s -> _curdigit s < numdigits -> numdigits <= 256 ->
  let next := (_curdigit s + 1) mod numdigits in
  show s = Ok (tt, with_curdigit next s, showDigit_trace next s).
Proof.
  intros Hwf Hc Hn next. rewrite show_next, showDigit_run by assumption.
  rewrite nat_to_byte_small; [reflexivity|].
  pose proof (Nat.mod_upper_bound (_curdigit s + 1) numdigits). lia.
Qed.

Lemma show_cursors_run k : forall s,
  wf s -> _curdigit s < numdigits -> numdigits <= 256 ->
  show_cursors k s = map (fun j => (_curdigit s + j) mod numdigits) (seq 1 k).
Proof.
  induction k as [|k IH]; intros s Hwf Hc Hn; [reflexivity|].
  cbn [show_cursors]. rewrite show_step by assumption. simpl.
  f_equal. rewrite IH; try assumption.
  - rewrite <- (seq_shift k 1), map_map. apply map_ext. intros j. simpl.
    rewrite Nat.Div0.add_mod_idemp_l. f_equal. lia.
  - simpl. apply Nat.mod_upper_bound. lia.
Qed.

Lemma mod_wrap c j n :
  c < n -> j <= n ->
  (c + j) mod n = if c + j <? n then c + j else c + j - n.
Proof.
  intros Hc Hj. destruct (Nat.ltb_spec (c + j) n).
  - apply Nat.mod_small. assumption.
  - replace (c + j) with ((c + j - n) + 1 * n) at 1 by lia.
    rewrite Nat.Div0.mod_add. apply Nat.mod_small. lia.
Qed.

Lemma cycle_permutation c n :
  c < n -> map (fun j => (c + j) mod n) (seq 1 n) ≡ₚ seq 0 n.
Proof.
  intros Hc. apply NoDup_Permutation.
  - apply NoDup_fmap_2_strong; [|apply NoDup_seq].
    intros j j' Hj Hj'. apply elem_of_seq in Hj, Hj'.
    rewrite !mod_wrap by lia.
    destruct (Nat.ltb_spec (c + j) n), (Nat.ltb_spec (c + j') n); lia.
  - apply NoDup_seq.
  - intros x. rewrite elem_of_seq. split.
    + intros Hx. apply list_elem_of_fmap in Hx as (j & -> & Hj).
      pose proof (Nat.mod_upper_bound (c + j) n). lia.
    + intros Hx. apply list_elem_of_fmap.
      exists (if c <? x then x - c else x + n - c).
      destruct (Nat.ltb_spec c x).
      * split; [|apply elem_of_seq; lia].
        rewrite mod_wrap by lia. destruct (Nat.ltb_spec (c + (x - c)) n); lia.
      * split; [|apply elem_of_seq; lia].
        rewrite mod_wrap by lia. destruct (Nat.ltb_spec (c + (x + n - c)) n); lia.
Qed.

(** ** Digits and glyphs *)

Lemma glyph_cell_bit7 d dp c : glyph_cell d dp = Some c -> N.testbit c 7 = dp.
Proof.
  unfold glyph_cell. destruct (table !! N.to_nat d) as [g|] eqn:Hg; [|discriminate].
  intros [= <-]. apply list_elem_of_lookup_2 in Hg.
  unfold table in Hg. repeat (apply elem_of_cons in Hg as [->|Hg]);
    try (destruct dp; reflexivity).
  inversion Hg.
Qed.




Lemma fits_iff (radix value : N) (n : nat) :
  (1 <= radix)%N ->
  (value / radix ^ N.of_nat n =? 0)%N = true <-> (value < radix ^ N.of_nat n)%N.
Proof.
  intros Hr. rewrite N.eqb_eq. apply N.div_small_iff.
  apply N.pow_nonzero. lia.
Qed.

(** * The specified properties *)

(** What [setValue] does for a radix that has glyphs. *)
Lemma setValue_run radix value lz dppos s :
  (1 <= radix <= 16)%N -> wf s ->
  exists s',
    setValue radix value lz dppos s =
      Ok ((value / radix ^ N.of_nat numdigits =? 0)%N, s', []) /\
    buffer_only s s' /\
    forall i, i < numdigits ->
      _display s' !! i = setValue_cell radix value lz dppos i.
Proof.
  intros Hr Hwf.
  destruct (setValue_loop_run radix value lz dppos Hr numdigits s Hwf)
    as (s' & Hloop & Hbuf & _ & Hcells); [lia|].
  rewrite Nat.sub_diag, N.pow_0_r, N.div_1_r in Hloop.
  exists s'. split; [|auto].
  unfold setValue. rewrite (bind_Ok _ _ _ _ _ _ Hloop). reflexivity.
Qed.



(** C2.  When [showDigit] is called while a digit is shown and for a
    different digit, its output is, in this order: the line of the
    current digit driven inactive, every segment line written with the
    pattern of the new digit, the line of the new digit driven active.
    Consequently, along the output of any sequence of public operations
    that starts with [begin], at most one digit-select line is driven
    active before and after every single output event; here no
    digit-select line is also a segment line, every later [begin] binds
    the same lines, there are at most 256 digits, and at most one of the
    lines was active to start with. *)
Theorem showDigit_break_before_make :
  (forall s newdigit,
      wf s -> _curdigit s < numdigits -> newdigit < numdigits ->
      newdigit <> _curdigit s ->
      showDigit newdigit s =
      Ok (tt, with_curdigit (nat_to_byte newdigit) s,
          DigitalWrite (pin_of (_digitpins s) (_curdigit s)) (negb digiton)
          :: segment_writes (_segmentpins s) (default 0%N (_display s !! newdigit))
          ++ [DigitalWrite (pin_of (_digitpins s) newdigit) digiton])) /\
  (forall dps sps blank ops s lv s' tr,
      numdigits <= 256 -> length dps = numdigits -> length sps = numsegments ->
      separate dps sps -> Forall (same_binding dps sps) ops ->
      wf s -> exclusive dps lv ->
      run (OpBegin dps sps blank :: ops) s = Ok (tt, s', tr) ->
      always (exclusive dps) lv tr).
Proof.
  split.
  - intros s newdigit Hwf Hc Hnew Hne. rewrite showDigit_run by exact Hwf.
    unfold showDigit_trace, pattern_of.
    destruct (Nat.ltb_spec (_curdigit s) numdigits); [|lia].
    destruct (Nat.ltb_spec newdigit numdigits); [|lia].
    destruct (Nat.eqb_spec newdigit (_curdigit s)); [lia|].
    reflexivity.
  - intros dps sps blank ops s lv s' tr Hn Hdl Hsl Hsep Hsame Hwf Hex Hrun.
    cbn [run] in Hrun.
    apply bind_inv in Hrun as ([] & s1 & t1 & t2 & Hbegin & Hrun & ->).
    cbn [exec] in Hbegin.
    destruct (begin_safe dps sps blank s lv s1 t1) as (Hal & Hco & Hwf1);
      try assumption.
    rewrite always_app. split; [exact Hal|].
    eapply run_safe; eassumption.
Qed.

(** C3.  On a blanked display [show] changes nothing and writes no
    line.  Otherwise it is [showDigit] of [(cursor + 1) mod numdigits],
    which becomes the cursor; [numdigits] consecutive calls pass through
    the cursors [(cursor + 1) mod numdigits], [(cursor + 2) mod numdigits],
    ..., each digit index exactly once, the last of them being the cursor
    they started from, and call [numdigits + 1] is back at the digit of
    the first call. *)
Theorem show_cycle s :
  wf s -> numdigits <= 256 ->
  (numdigits <= _curdigit s -> show s = Ok (tt, s, [])) /\
  (_curdigit s < numdigits ->
   let next := (_curdigit s + 1) mod numdigits in
   show s = showDigit next s /\
   show s = Ok (tt, with_curdigit next s, showDigit_trace next s) /\
   show_cursors numdigits s =
     map (fun j => (_curdigit s + j) mod numdigits) (seq 1 numdigits) /\
   show_cursors numdigits s ≡ₚ seq 0 numdigits /\
   show_cursors (S numdigits) s !! 0 = Some next /\
   show_cursors (S numdigits) s !! (numdigits - 1) = Some (_curdigit s) /\
   show_cursors (S numdigits) s !! numdigits = Some next).
Proof.
  intros Hwf Hn. split; [apply show_blank|]. intros Hc next.
  split; [apply show_next, Hc|].
  split; [apply show_step; assumption|].
  split; [apply show_cursors_run; assumption|].
  split.
  - rewrite show_cursors_run by assumption. apply cycle_permutation, Hc.
  - rewrite show_cursors_run by assumption.
    change (map ?f ?l) with (f <$> l). rewrite !list_lookup_fmap.
    rewrite !lookup_seq_lt by lia. simpl. split; [reflexivity|]. split; f_equal.
    + replace (_curdigit s + (1 + (numdigits - 1)))
        with (_curdigit s + 1 * numdigits) by lia.
      rewrite Nat.Div0.mod_add. apply Nat.mod_small, Hc.
    + unfold next.
      replace (_curdigit s + (1 + numdigits))
        with (_curdigit s + 1 + 1 * numdigits) by lia.
      apply Nat.Div0.mod_add.
Qed.


(** C5, at the failing input.  For a digit index in range the number 16
    passes the range check of [setNumber], and the lookup then reads
    [table[16]], which is not one of the 16 entries of the table.
    (Numbers above 16 are rejected: the call does nothing.) *)
Theorem setNumber_16_outside_table index dp sh s :
  index < numdigits ->
  (index <? numdigits) && (to_byte 16 <=? 16)%N = true /\
  table !! N.to_nat (to_byte 16) = None /\
  setNumber index 16 dp sh s = OutOfBounds /\
  (forall num, (16 < num < 256)%N -> setNumber index num dp sh s = Ok (tt, s, [])).
Proof.
  intros Hi. split; [|split; [reflexivity|split]].
  - destruct (Nat.ltb_spec index numdigits); [reflexivity|lia].
  - apply setNumber_16; [exact Hi|reflexivity].
  - intros num Hnum. apply setNumber_out_num. rewrite to_byte_small; lia.
Qed.

(** C6, as amended.  The constructor sets every entry of the buffer to 0
    and leaves the cursor as it finds it in the storage of the object:
    it does not set it to the blanking value.  [begin] sets the cursor to
    0 or to [numdigits], and every public operation keeps the cursor in
    the range from 0 to [numdigits]. *)
Theorem cursor_invariant s :
  wf s ->
  Display7Seg s = Ok (tt, with_display (repeat 0%N numdigits) s, []) /\
  (forall dps sps blank s' tr,
      begin dps sps blank s = Ok (tt, s', tr) ->
      _curdigit s' = nat_to_byte (if blank then numdigits else 0) /\
      cursor_inv s') /\
  (forall o s' tr,
      cursor_inv s -> exec o s = Ok (tt, s', tr) -> cursor_inv s').
Proof.
  intros Hwf. split; [apply Display7Seg_run, Hwf|]. split.
  - intros dps sps blank s' tr H. unfold begin in H.
    apply bind_inv in H as (? & s1 & ? & ? & _ & H & _).
    apply bind_inv in H as (? & s2 & ? & ? & _ & H & _).
    apply showDigit_cursor in H. split; [exact H|].
    unfold cursor_inv. rewrite H.
    etransitivity; [apply nat_to_byte_le|]. destruct blank; lia.
  - intros o s' tr Hinv H. unfold cursor_inv in *.
    destruct (exec_cursor o s s' tr Hwf H) as [->|(n & Hn & ->)]; [exact Hinv|].
    etransitivity; [apply nat_to_byte_le|exact Hn].
Qed.

(** C7.  [setBlank(true)] sets the cursor to [numdigits], after which
    [isBlank] returns true.  [setBlank(false)] sets the cursor to 0
    whatever it was, after which [isBlank] returns false, and the last
    thing it does is to drive the line of digit 0 active.  With the cursor
    in its range, [isBlank] returns true exactly when the cursor equals
    [numdigits]. *)
Theorem setBlank_isBlank s :
  valid_config -> wf s ->
  (exists tr,
      setBlank true s = Ok (tt, with_curdigit numdigits s, tr) /\
      isBlank (with_curdigit numdigits s) =
        Ok (true, with_curdigit numdigits s, [])) /\
  (exists tr,
      setBlank false s = Ok (tt, with_curdigit 0 s, tr) /\
      isBlank (with_curdigit 0 s) = Ok (false, with_curdigit 0 s, []) /\
      last tr = Some (DigitalWrite (pin_of (_digitpins s) 0) digiton)) /\
  (cursor_inv s ->
   exists b, isBlank s = Ok (b, s, []) /\ (b = true <-> _curdigit s = numdigits)).
Proof.
  intros [Hn1 Hn2] Hwf. split; [|split].
  - eexists. unfold setBlank. rewrite showDigit_run by exact Hwf.
    rewrite nat_to_byte_small by lia. split; [reflexivity|].
    rewrite isBlank_run. simpl. rewrite Nat.leb_refl. reflexivity.
  - eexists. unfold setBlank. rewrite showDigit_run by exact Hwf.
    rewrite nat_to_byte_small by lia. split; [reflexivity|].
    rewrite isBlank_run. simpl.
    destruct (Nat.leb_spec numdigits 0); [lia|]. split; [reflexivity|].
    unfold showDigit_trace.
    destruct (Nat.ltb_spec 0 numdigits); [|lia]. apply last_snoc.
  - intros Hinv. eexists. split; [apply isBlank_run|].
    unfold cursor_inv in Hinv. rewrite Nat.leb_le. lia.
Qed.

(** C8.  For a digit index outside [0, numdigits), whatever the other
    arguments, [setSegments] and [setNumber] return without changing the
    buffer, the cursor or anything else of the object, and without
    writing any line. *)
Theorem out_of_range_index_noop index bitmap num dp sh s :
  numdigits <= index ->
  setSegments index bitmap sh s = Ok (tt, s, []) /\
  setNumber index num dp sh s = Ok (tt, s, []).
Proof.
  intros Hi. split; [apply setSegments_out|apply setNumber_out_index]; exact Hi.
Qed.

(** C9.  For an index in range [operator[]] designates that entry of
    the buffer: a bitmap stored by [setSegments] is read back unchanged
    through it, and a store through it changes that entry.  For an index
    out of range it designates the scratch pad: loads and stores through
    it succeed without touching an array and the buffer stays as it is. *)
Theorem accessor_roundtrip s :
  wf s ->
  (forall index bitmap sh,
      index < numdigits -> (bitmap < 256)%N ->
      operator_index index = LDisplay index /\
      (exists s' tr,
          setSegments index bitmap sh s = Ok (tt, s', tr) /\
          load (operator_index index) s' = Ok (bitmap, s', [])) /\
      (forall x,
          store (operator_index index) x s =
          Ok (tt, with_display (<[index := to_byte x]> (_display s)) s, []))) /\
  (forall index x,
      numdigits <= index ->
      operator_index index = LDummy /\
      load (operator_index index) s = Ok (dummy s, s, []) /\
      exists s',
        store (operator_index index) x s = Ok (tt, s', []) /\
        _display s' = _display s /\ _curdigit s' = _curdigit s).
Proof.
  intros Hwf. split.
  - intros index bitmap sh Hi Hb.
    assert (Hop : operator_index index = LDisplay index).
    { unfold operator_index. destruct (Nat.ltb_spec index numdigits); [reflexivity|lia]. }
    assert (Hlen : index < length (_display s)) by (destruct Hwf as (_ & _ & ->); exact Hi).
    rewrite Hop. split; [reflexivity|]. split.
    + rewrite (setSegments_in index bitmap sh s Hwf Hi), to_byte_small by exact Hb.
      destruct sh; eexists _, _; (split; [reflexivity|]); simpl;
        unfold read_display; simpl;
        apply array_read_Some, list_lookup_insert_eq, Hlen.
    + intros x. simpl. apply write_display_lt, Hlen.
  - intros index x Hi.
    assert (Hop : operator_index index = LDummy).
    { unfold operator_index. destruct (Nat.ltb_spec index numdigits); [lia|reflexivity]. }
    rewrite Hop. split; [reflexivity|]. split; [reflexivity|].
    eexists. split; [reflexivity|]. split; reflexivity.
Qed.

(** C10.  Whatever the value, the [leadingzero] flag and the
    decimal-point position, a call of [setValue] that returns has
    written no line and has changed nothing but the contents of the
    buffer: the cursor, and with it the answer of [isBlank], are as
    before.  For a radix up to 16 the call does return. *)
Theorem setValue_buffer_only radix value lz dppos s :
  wf s -> (1 <= radix)%N ->
  (forall r s' tr,
      setValue radix value lz dppos s = Ok (r, s', tr) ->
      tr = [] /\ buffer_only s s' /\ _curdigit s' = _curdigit s /\
      exists b, isBlank s = Ok (b, s, []) /\ isBlank s' = Ok (b, s', [])) /\
  ((radix <= 16)%N ->
   exists r s', setValue radix value lz dppos s = Ok (r, s', [])).
Proof.
  intros Hwf Hr. split.
  - intros r s' tr H. unfold setValue in H.
    apply bind_inv in H as (v & s1 & t1 & t2 & Hloop & Hret & ->).
    injection Hret as _ <- <-.
    apply setValue_loop_frame in Hloop as (-> & Hbuf & _); [|exact Hwf].
    assert (Hcur : _curdigit s1 = _curdigit s) by (destruct Hbuf as [-> _]; reflexivity).
    split; [reflexivity|]. split; [exact Hbuf|]. split; [exact Hcur|].
    eexists. rewrite !isBlank_run, Hcur. split; reflexivity.
  - intros Hr16.
    destruct (setValue_run radix value lz dppos s) as (s' & Hset & _);
      [lia|exact Hwf|].
    eauto.
Qed.

End Display7SegFacts.

(** * The properties on the timer of the example sketch *)

Lemma timer_separate : separate timer_digits timer_segments.
Proof.
  unfold separate. apply (Forall_forall (fun p => p ∉ timer_segments)).
  compute_done.
Qed.

Lemma timer_undriven : exclusive (tpl:=timer) timer_digits ∅.
Proof. intros p q _ _ Hp. unfold driven_active in Hp. rewrite lookup_empty in Hp. discriminate. Qed.



(** C2 on the timer: a change from digit 2 to digit 0, and the whole
    session after [begin] on lines that were never driven. *)
Lemma showDigit_break_before_make_witness :
  (wf (tpl:=timer) timer_1234 /\ _curdigit timer_1234 < 4 /\ 0 < 4 /\
   0 <> _curdigit timer_1234 /\
   showDigit (tpl:=timer) 0 timer_1234 =
   Ok (tt, with_curdigit 0 timer_1234,
       DigitalWrite 3 false
       :: segment_writes (tpl:=timer) timer_segments 0x06
       ++ [DigitalWrite 5 true])) /\
  (4 <= 256 /\ separate timer_digits timer_segments /\
   Forall (same_binding timer_digits timer_segments) timer_session /\
   wf (tpl:=timer) timer_storage /\ exclusive (tpl:=timer) timer_digits ∅ /\
   exists s' tr,
     run (tpl:=timer) (OpBegin timer_digits timer_segments false :: timer_session)
         timer_storage = Ok (tt, s', tr) /\
     always (exclusive (tpl:=timer) timer_digits) ∅ tr).
Proof.
  destruct (showDigit_break_before_make (tpl:=timer)) as [Horder Hexcl].
  split.
  - split; [timer_wf|]. split; [simpl; lia|]. split; [lia|].
    split; [simpl; lia|].
    apply (Horder timer_1234 0); [timer_wf|simpl; lia|simpl; lia|simpl; lia].
  - split; [lia|]. split; [exact timer_separate|].
    assert (Hsame : Forall (same_binding timer_digits timer_segments) timer_session)
      by (repeat constructor).
    split; [exact Hsame|]. split; [timer_wf|]. split; [exact timer_undriven|].
    eexists _, _. split; [vm_compute; reflexivity|].
    eapply (Hexcl timer_digits timer_segments false timer_session timer_storage ∅);
      [simpl; lia|reflexivity|reflexivity|exact timer_separate|exact Hsame
      |timer_wf|exact timer_undriven|vm_compute; reflexivity].
Defined.

(** C3 on the timer: from the cursor on digit 2, and blanked. *)
Lemma show_cycle_witness :
  (wf (tpl:=timer) timer_1234 /\ 4 <= 256 /\ _curdigit timer_1234 < 4 /\
   show (tpl:=timer) timer_1234 = showDigit (tpl:=timer) 3 timer_1234 /\
   show_cursors (tpl:=timer) 4 timer_1234 = [3; 0; 1; 2] /\
   show_cursors (tpl:=timer) 4 timer_1234 ≡ₚ seq 0 4 /\
   show_cursors (tpl:=timer) 5 timer_1234 !! 0 = Some 3 /\
   show_cursors (tpl:=timer) 5 timer_1234 !! 4 = Some 3) /\
  (4 <= _curdigit (with_curdigit 4 timer_1234) /\
   show (tpl:=timer) (with_curdigit 4 timer_1234) =
   Ok (tt, with_curdigit 4 timer_1234, [])).
Proof.
  split.
  - destruct (show_cycle (tpl:=timer) timer_1234) as [_ Hshown];
      [timer_wf|simpl; lia|].
    destruct Hshown as (Hnext & _ & Hcur & Hperm & Hfirst & _ & Hlast); [simpl; lia|].
    split; [timer_wf|]. split; [lia|]. split; [simpl; lia|].
    split; [exact Hnext|]. split; [exact Hcur|]. split; [exact Hperm|].
    split; [exact Hfirst|exact Hlast].
  - split; [simpl; lia|].
    apply (show_cycle (tpl:=timer) (with_curdigit 4 timer_1234));
      [timer_wf|simpl; lia|simpl; lia].
Defined.


(** C5 on the timer: [setNumber(0, 16)]. *)
Lemma setNumber_16_outside_table_witness :
  0 < 4 /\
  table !! N.to_nat (to_byte 16) = None /\
  setNumber (tpl:=timer) 0 16 false false timer_1234 = OutOfBounds.
Proof.
  split; [lia|].
  destruct (setNumber_16_outside_table (tpl:=timer) 0 false false timer_1234)
    as (_ & Htable & Hset & _); [simpl; lia|].
  split; [exact Htable|exact Hset].
Defined.

(** C6 as stated does not hold: constructed in zeroed storage, the timer
    has the cursor 0, which is not the blanking value 4, and [isBlank]
    returns false. *)
Lemma constructor_cursor_counterexample :
  exists s',
    Display7Seg (tpl:=timer) timer_storage = Ok (tt, s', []) /\
    _display s' = [0; 0; 0; 0]%N /\
    _curdigit s' = 0 /\
    _curdigit s' <> numdigits (Template:=timer) /\
    isBlank (tpl:=timer) s' = Ok (false, s', []).
Proof.
  eexists. split; [reflexivity|]. split; [reflexivity|]. split; [reflexivity|].
  split; [discriminate|reflexivity].
Qed.

(** C6 on the timer: construction, [begin] and a call of [show]. *)
Lemma cursor_invariant_witness :
  wf (tpl:=timer) timer_1234 /\
  Display7Seg (tpl:=timer) timer_1234 =
    Ok (tt, with_display (repeat 0%N 4) timer_1234, []) /\
  (exists s' tr,
      begin (tpl:=timer) timer_digits timer_segments true timer_1234 = Ok (tt, s', tr) /\
      _curdigit s' = 4 /\ cursor_inv (tpl:=timer) s') /\
  (cursor_inv (tpl:=timer) timer_1234 /\
   exists s' tr,
     exec (tpl:=timer) OpShow timer_1234 = Ok (tt, s', tr) /\
     cursor_inv (tpl:=timer) s').
Proof.
  destruct (cursor_invariant (tpl:=timer) timer_1234) as (Hctor & Hbegin & Hexec);
    [timer_wf|].
  assert (Hinv : cursor_inv (tpl:=timer) timer_1234) by (unfold cursor_inv; simpl; lia).
  split; [timer_wf|]. split; [exact Hctor|]. split.
  - eexists _, _. split; [vm_compute; reflexivity|].
    eapply (Hbegin timer_digits timer_segments true). vm_compute. reflexivity.
  - split; [exact Hinv|]. eexists _, _. split; [vm_compute; reflexivity|].
    eapply (Hexec OpShow); [exact Hinv|vm_compute; reflexivity].
Defined.

(** C7 on the timer. *)
Lemma setBlank_isBlank_witness :
  valid_config (tpl:=timer) /\ wf (tpl:=timer) timer_1234 /\
  cursor_inv (tpl:=timer) timer_1234 /\
  (exists tr,
      setBlank (tpl:=timer) true timer_1234 = Ok (tt, with_curdigit 4 timer_1234, tr) /\
      isBlank (tpl:=timer) (with_curdigit 4 timer_1234) =
        Ok (true, with_curdigit 4 timer_1234, [])) /\
  (exists tr,
      setBlank (tpl:=timer) false timer_1234 = Ok (tt, with_curdigit 0 timer_1234, tr) /\
      isBlank (tpl:=timer) (with_curdigit 0 timer_1234) =
        Ok (false, with_curdigit 0 timer_1234, []) /\
      last tr = Some (DigitalWrite 5 true)) /\
  exists b,
    isBlank (tpl:=timer) timer_1234 = Ok (b, timer_1234, []) /\
    (b = true <-> _curdigit timer_1234 = 4).
Proof.
  assert (Hcfg : valid_config (tpl:=timer)) by (unfold valid_config; simpl; lia).
  assert (Hinv : cursor_inv (tpl:=timer) timer_1234) by (unfold cursor_inv; simpl; lia).
  destruct (setBlank_isBlank (tpl:=timer) timer_1234) as (Hon & Hoff & Hblank);
    [exact Hcfg|timer_wf|].
  split; [exact Hcfg|]. split; [timer_wf|]. split; [exact Hinv|].
  split; [exact Hon|]. split; [exact Hoff|]. apply Hblank, Hinv.
Defined.

(** C8 on the timer: index 4 is the first one out of range. *)
Lemma out_of_range_index_noop_witness :
  4 <= 4 /\
  setSegments (tpl:=timer) 4 0xFF true timer_1234 = Ok (tt, timer_1234, []) /\
  setNumber (tpl:=timer) 4 8 true true timer_1234 = Ok (tt, timer_1234, []).
Proof.
  split; [lia|].
  apply (out_of_range_index_noop (tpl:=timer) 4 0xFF 8 true true timer_1234).
  simpl. lia.
Defined.

(** C9 on the timer: digit 2 and the index 7. *)
Lemma accessor_roundtrip_witness :
  wf (tpl:=timer) timer_1234 /\
  (2 < 4 /\ (0x5B < 256)%N /\
   operator_index (tpl:=timer) 2 = LDisplay 2 /\
   exists s' tr,
     setSegments (tpl:=timer) 2 0x5B false timer_1234 = Ok (tt, s', tr) /\
     load (operator_index (tpl:=timer) 2) s' = Ok (0x5B%N, s', [])) /\
  (4 <= 7 /\
   operator_index (tpl:=timer) 7 = LDummy /\
   exists s',
     store (operator_index (tpl:=timer) 7) 0xFF timer_1234 = Ok (tt, s', []) /\
     _display s' = _display timer_1234 /\ _curdigit s' = _curdigit timer_1234).
Proof.
  destruct (accessor_roundtrip (tpl:=timer) timer_1234) as [Hin Hout]; [timer_wf|].
  split; [timer_wf|]. split.
  - destruct (Hin 2 0x5B%N false) as (Hloc & Hround & _); [simpl; lia|lia|].
    split; [lia|]. split; [lia|]. split; [exact Hloc|exact Hround].
  - destruct (Hout 7 0xFF%N) as (Hloc & _ & Hstore); [simpl; lia|].
    split; [lia|]. split; [exact Hloc|exact Hstore].
Defined.

(** C10 on the timer, blanked: it stays blanked. *)
Lemma setValue_buffer_only_witness :
  wf (tpl:=timer) (with_curdigit 4 timer_1234) /\ (1 <= 16)%N /\ (16 <= 16)%N /\
  exists r s',
    setValue (tpl:=timer) 16 0xBEEF true 4 (with_curdigit 4 timer_1234) = Ok (r, s', []) /\
    buffer_only (with_curdigit 4 timer_1234) s' /\ _curdigit s' = 4 /\
    isBlank (tpl:=timer) s' = Ok (true, s', []).
Proof.
  destruct (setValue_buffer_only (tpl:=timer) 16 0xBEEF true 4 (with_curdigit 4 timer_1234))
    as [Hframe Hret]; [timer_wf|lia|].
  split; [timer_wf|]. split; [lia|]. split; [lia|].
  destruct Hret as (r & s' & Hset); [lia|].
  destruct (Hframe r s' [] Hset) as (_ & Hbuf & Hcur & b & Hb & Hb').
  exists r, s'. split; [exact Hset|]. split; [exact Hbuf|]. split; [exact Hcur|].
  rewrite Hb'. injection Hb as <-. reflexivity.
Defined.

(** * Further properties *)

(** ** The counter of the timer sketch *)

Lemma uint_pow (bits : N) :
  (bits = 16 \/ bits = 32)%N -> (2 ^ bits = 65536 \/ 2 ^ bits = 4294967296)%N.
Proof. intros [-> | ->]; [left|right]; reflexivity. Qed.

Lemma bump_step (bits c : N) :
  (bits = 16 \/ bits = 32)%N ->
  (c mod 1000 < 600)%N -> (c + 401 < 2 ^ bits)%N ->
  bump bits c = (if (c mod 1000 =? 599)%N then c + 401 else c + 1)%N.
Proof.
  intros Hbits Hc Hlt. unfold bump, uint.
  rewrite (N.mod_small (c + 1)%N) by lia.
  destruct (N.eqb_spec (c mod 1000) 599) as [H599|H599].
  - assert (Hm : ((c + 1) mod 1000 = 600)%N) by euclid.
    rewrite Hm, N.eqb_refl, N.mod_small by lia. lia.
  - destruct (N.eqb_spec ((c + 1) mod 1000) 600) as [E|E]; [|reflexivity].
    exfalso. euclid.
Qed.

(** The seconds never reach 60: an invariant of the counter, whatever
    the width of [unsigned] makes it wrap to. *)
Lemma bump_seconds (bits c : N) :
  (bits = 16 \/ bits = 32)%N ->
  (c < 2 ^ bits)%N -> (c mod 1000 < 600)%N ->
  (bump bits c < 2 ^ bits)%N /\ (bump bits c mod 1000 < 600)%N.
Proof.
  intros Hbits Hlt Hc. apply uint_pow in Hbits as Hpow. unfold bump, uint.
  destruct (N.eq_dec (c + 1)%N (2 ^ bits)%N) as [Hwrap|Hwrap].
  - rewrite Hwrap, N.Div0.mod_same. change ((0 mod 1000 =? 600)%N) with false.
    cbv iota. split; [lia|reflexivity].
  - rewrite (N.mod_small (c + 1)%N) by lia.
    destruct (N.eqb_spec ((c + 1) mod 1000) 600) as [E|E].
    + assert (c + 1 + 400 < 2 ^ bits)%N by euclid.
      rewrite N.mod_small by assumption. split; [assumption|euclid].
    + split; [lia|euclid].
Qed.

Lemma counter_seconds (bits : N) (k : nat) :
  (bits = 16 \/ bits = 32)%N ->
  let c := counter_after bits k in
  (c < 2 ^ bits)%N /\ (c mod 1000 < 600)%N.
Proof.
  intros Hbits. apply uint_pow in Hbits as Hpow.
  induction k as [|k IH]; cbn [counter_after]; cbv zeta in *.
  - split; [lia|reflexivity].
  - destruct IH as [Hlt Hc].
    destruct (bump_seconds bits _ Hbits Hlt Hc) as [Hlt' Hc'].
    unfold next_counter.
    destruct (N.eqb_spec (bump bits (counter_after bits k)) 9999) as [E|E].
    + split; [lia|reflexivity].
    + split; assumption.
Qed.

(** X1.  The counter of the sketch never has 60 or more in its seconds
    digits, so the test [counter == 9999] of [loop] fails in every update
    and the reset to 0 that it guards never happens: the update is
    [bump] alone. *)
Theorem counter_reset_never_taken (bits : N) (k : nat) :
  (bits = 16 \/ bits = 32)%N ->
  let c := counter_after bits k in
  (c mod 1000 < 600)%N /\
  bump bits c <> 9999%N /\
  next_counter bits c = bump bits c.
Proof.
  intros Hbits c.
  destruct (counter_seconds bits k Hbits) as [Hlt Hc]. fold c in Hlt, Hc.
  destruct (bump_seconds bits c Hbits Hlt Hc) as [_ Hc'].
  assert (Hne : bump bits c <> 9999%N).
  { intros E. rewrite E in Hc'. vm_compute in Hc'. discriminate. }
  split; [exact Hc|]. split; [exact Hne|].
  unfold next_counter. destruct (N.eqb_spec (bump bits c) 9999); [contradiction|reflexivity].
Qed.

Lemma counter_closed (bits : N) (k : nat) :
  (bits = 16 \/ bits = 32)%N ->
  (N.of_nat k / 600 * 1000 + 1000 <= 2 ^ bits)%N ->
  counter_after bits k =
  (N.of_nat k / 600 * 1000 + N.of_nat k mod 600)%N.
Proof.
  intros Hbits. apply uint_pow in Hbits as Hpow.
  induction k as [|k IH]; intros Hk; [reflexivity|].
  cbn [counter_after]. rewrite IH by euclid.
  set (c := (N.of_nat k / 600 * 1000 + N.of_nat k mod 600)%N).
  assert (Hmod : (c mod 1000 = N.of_nat k mod 600)%N) by (unfold c; euclid).
  assert (Hb : bump bits c = (if (c mod 1000 =? 599)%N then c + 401 else c + 1)%N).
  { apply bump_step; [exact Hbits|euclid|unfold c; euclid]. }
  unfold next_counter. rewrite Hb.
  destruct (N.eqb_spec (c mod 1000) 599) as [E|E].
  - destruct (N.eqb_spec (c + 401)%N 9999) as [E'|E']; [exfalso; euclid|].
    unfold c. euclid.
  - destruct (N.eqb_spec (c + 1)%N 9999) as [E'|E']; [exfalso; euclid|].
    unfold c. euclid.
Qed.

(** X2.  While it does not wrap, the counter after [k] updates is
    [1000 * minutes + tenths of a second], with [k = 600 * minutes +
    tenths]: the time in the form m.ss.t.  It fits the four digits for
    the first 6000 updates; from then on [setValue] reports that it does
    not fit (and the sketch, which ignores the answer, goes on). *)
Theorem counter_shows_time (bits : N) (k : nat) (s : state) :
  (bits = 16 \/ bits = 32)%N ->
  (N.of_nat k / 600 * 1000 + 1000 <= 2 ^ bits)%N ->
  wf (tpl:=timer) s ->
  counter_after bits k = (N.of_nat k / 600 * 1000 + N.of_nat k mod 600)%N /\
  exists s',
    setValue (tpl:=timer) 10 (counter_after bits k) false 2 s =
    Ok ((N.of_nat k <? 6000)%N, s', []).
Proof.
  intros Hbits Hk Hwf. split; [apply counter_closed; assumption|].
  destruct (setValue_run (tpl:=timer) 10 (counter_after bits k) false 2 s)
    as (s' & Hset & _); [lia|exact Hwf|].
  exists s'. rewrite Hset. do 3 f_equal.
  rewrite counter_closed by assumption.
  change (10 ^ N.of_nat (numdigits (Template:=timer)))%N with 10000%N.
  destruct (N.ltb_spec (N.of_nat k) 6000), (N.eqb_spec
    ((N.of_nat k / 600 * 1000 + N.of_nat k mod 600) / 10000) 0)%N;
    try reflexivity; exfalso; euclid.
Qed.

(** ** The sketch as a whole *)

Lemma refresh_run (bits c : N) (d : state) :
  wf (tpl:=timer) d ->
  exists d', refresh c d = Ok (tt, d', []) /\ buffer_only d d'.
Proof.
  intros Hwf. unfold refresh.
  destruct (setValue_run (tpl:=timer) 10 c false 2 d) as (d1 & Hset & Hbuf & _);
    [lia|exact Hwf|].
  erewrite bind_Ok by exact Hset.
  assert (Hwf1 : wf (tpl:=timer) d1) by (eapply buffer_only_wf; eassumption).
  destruct (1000 <=? c)%N.
  - assert (Hlen : 0 < length (_display d1)) by (destruct Hwf1 as (_ & _ & ->); simpl; lia).
    change (operator_index (tpl:=timer) 0) with (LDisplay 0). cbn [load store].
    unfold read_display.
    erewrite bind_Ok by (apply array_read_lt, Hlen).
    rewrite write_display_lt by exact Hlen.
    eexists. split; [reflexivity|].
    eapply buffer_only_trans; [exact Hbuf|apply buffer_only_insert].
  - eexists. split; [reflexivity|exact Hbuf].
Qed.

Lemma show_total `{tpl : Template} (d : state) :
  wf d -> exists d' tr, show d = Ok (tt, d', tr).
Proof.
  intros Hwf. destruct (Nat.lt_ge_cases (_curdigit d) numdigits) as [Hc|Hc].
  - rewrite show_next, showDigit_run by assumption. eauto.
  - rewrite show_blank by assumption. eauto.
Qed.

Lemma loop_safe (bits millis0 millis1 : N) (k : sketch) (lv : levels) :
  wf (tpl:=timer) (display k) ->
  coherent (tpl:=timer) timer_digits timer_segments (display k) lv ->
  exists k' tr,
    loop bits millis0 millis1 k = Ok (k', tr) /\
    always (exclusive (tpl:=timer) timer_digits) lv tr /\
    coherent (tpl:=timer) timer_digits timer_segments (display k') (replay tr lv) /\
    wf (tpl:=timer) (display k').
Proof.
  intros Hwf Hco.
  assert (Hshow : forall d, wf (tpl:=timer) d ->
            coherent (tpl:=timer) timer_digits timer_segments d lv ->
            exists d' tr, show (tpl:=timer) d = Ok (tt, d', tr) /\
              always (exclusive (tpl:=timer) timer_digits) lv tr /\
              coherent (tpl:=timer) timer_digits timer_segments d' (replay tr lv) /\
              wf (tpl:=timer) d').
  { intros d Hwfd Hcod. destruct (show_total d Hwfd) as (d' & tr & Hs).
    exists d', tr. split; [exact Hs|].
    apply (exec_safe (tpl:=timer) timer_digits timer_segments OpShow d lv d' tr);
      first [assumption | reflexivity | exact timer_separate | exact I | (simpl; lia)]. }
  unfold loop. destruct (100 <? _)%N.
  - destruct (refresh_run bits (next_counter bits (counter k)) (display k) Hwf)
      as (d1 & Href & Hbuf).
    destruct (Hshow d1) as (d2 & tr & Hs & Hal & Hco2 & Hwf2).
    { eapply buffer_only_wf; eassumption. }
    { eapply coherent_buffer_only; eassumption. }
    erewrite bind_Ok by exact Href. rewrite Hs. simpl.
    eexists _, _. split; [reflexivity|]. auto.
  - destruct (Hshow (display k) Hwf Hco) as (d2 & tr & Hs & Hal & Hco2 & Hwf2).
    rewrite Hs. eexists _, _. split; [reflexivity|]. auto.
Qed.

Lemma loops_safe (bits : N) (readings : list (N * N)) : forall (k : sketch) (lv : levels),
  wf (tpl:=timer) (display k) ->
  coherent (tpl:=timer) timer_digits timer_segments (display k) lv ->
  exists k' tr,
    loops bits readings k = Ok (k', tr) /\
    always (exclusive (tpl:=timer) timer_digits) lv tr.
Proof.
  induction readings as [|[millis0 millis1] readings IH]; intros k lv Hwf Hco;
    cbn [loops].
  - eexists _, _. split; [reflexivity|]. simpl. eapply coherent_exclusive, Hco.
  - destruct (loop_safe bits millis0 millis1 k lv Hwf Hco)
      as (k1 & t1 & Hloop & Hal & Hco1 & Hwf1).
    destruct (IH k1 (replay t1 lv) Hwf1 Hco1) as (k2 & t2 & Hloops & Hal2).
    rewrite Hloop, Hloops. eexists _, _. split; [reflexivity|].
    apply always_app. auto.
Qed.

(** X3.  The sketch, whatever the clock reads and however long it runs:
    the constructor, [setup] and every call of [loop] return, none of
    them reads outside an array (the digits of the counter are decimal,
    so the entry [table[16]] is never asked for), and along all its
    output at most one of the four digit lines is driven active. *)
Theorem sketch_runs_safely (bits : N) (readings : list (N * N)) :
  exists k tr,
    sketch_run bits readings = Ok (k, tr) /\
    always (exclusive (tpl:=timer) timer_digits) ∅ tr.
Proof.
  unfold sketch_run.
  assert (Hwf0 : wf (tpl:=timer) (zero_storage (tpl:=timer))) by timer_wf.
  erewrite bind_Ok by (apply Display7Seg_run, Hwf0).
  set (d0 := with_display _ _).
  assert (Hwfd0 : wf (tpl:=timer) d0) by timer_wf.
  destruct (setup d0) as [[[[] d1] t0]|] eqn:Hsetup; [|discriminate Hsetup].
  destruct (begin_safe (tpl:=timer) timer_digits timer_segments false d0 ∅ d1 t0)
    as (Hal & Hco & Hwf1);
    [simpl; lia|reflexivity|reflexivity|exact timer_separate|exact Hwfd0
    |exact timer_undriven|exact Hsetup|].
  destruct (loops_safe bits readings (mkSketch d1 None 0%N) (replay t0 ∅) Hwf1 Hco)
    as (k & tr & Hloops & Hal2).
  rewrite Hloops. simpl. eexists _, _. split; [reflexivity|].
  apply always_app. auto.
Qed.

(** ** What the buffer shows *)

Section Display7SegMore.

Context {tpl : Template}.

Lemma glyph_cell_digit d dp c :
  glyph_cell d dp = Some c ->
  glyph_digit c = d /\ N.land c 0x7F <> 0%N /\ (c < 256)%N.
Proof.
  unfold glyph_cell. destruct (table !! N.to_nat d) as [g|] eqn:Hg; [|discriminate].
  intros [= <-].
  assert (Hd : N.to_nat d < 16) by (eapply lookup_lt_Some in Hg; exact Hg).
  replace d with (N.of_nat (N.to_nat d)) by lia.
  remember (N.to_nat d) as n eqn:Hn. clear Hn.
  do 16 (destruct n as [|n];
         [injection Hg as <-;
          destruct dp; (split; [reflexivity|split; [vm_compute; discriminate|reflexivity]])|]).
  lia.
Qed.

Lemma blank_cell_digit (dp : bool) : glyph_digit (if dp then 0x80 else 0)%N = 0%N.
Proof. destruct dp; reflexivity. Qed.

Lemma setValue_cell_digit radix value lz dppos i x :
  setValue_cell radix value lz dppos i = Some x ->
  glyph_digit x = digit_at radix value i.
Proof.
  unfold setValue_cell. destruct (_ && _) eqn:Hsup.
  - intros [= <-]. rewrite !andb_true_iff in Hsup.
    destruct Hsup as [[[[Hd _] _] _] _]. apply N.eqb_eq in Hd. rewrite Hd.
    apply blank_cell_digit.
  - intros H. apply glyph_cell_digit in H. apply H.
Qed.

(** X4.  The entry that [setNumber] writes for a number below 16
    determines the number and the decimal-point flag: the glyphs of
    the sixteen digits are pairwise distinct, none of them is the empty
    pattern, and none uses bit 7. *)
Theorem setNumber_glyph_decodes index num dp s :
  wf s -> index < numdigits -> (num < 16)%N ->
  exists x,
    setNumber index num dp false s =
      Ok (tt, with_display (<[index := x]> (_display s)) s, []) /\
    glyph_digit x = num /\ N.testbit x 7 = dp /\ N.land x 0x7F <> 0%N.
Proof.
  intros Hwf Hi Hnum.
  destruct (glyph_cell_lt num dp Hnum) as [c Hc].
  destruct (glyph_cell_digit num dp c Hc) as (Hdig & Hne & Hbyte).
  exists c. split; [|split; [exact Hdig|split; [eapply glyph_cell_bit7, Hc|exact Hne]]].
  rewrite (setNumber_glyph index num dp false s c Hi)
    by (rewrite to_byte_small by lia; exact Hc).
  rewrite (setSegments_in index c false s Hwf Hi). simpl.
  rewrite to_byte_small by exact Hbyte. reflexivity.
Qed.

Lemma read_number_snoc radix cells x :
  read_number radix (cells ++ [x]) =
  (read_number radix cells * radix + glyph_digit x)%N.
Proof. unfold read_number. rewrite fold_left_app. reflexivity. Qed.

Lemma read_number_take radix value (cells : list N) :
  (1 <= radix)%N -> (value < radix ^ N.of_nat numdigits)%N ->
  length cells = numdigits ->
  (forall i x, cells !! i = Some x -> glyph_digit x = digit_at radix value i) ->
  forall k, k <= numdigits ->
    read_number radix (take k cells) = (value / radix ^ N.of_nat (numdigits - k))%N.
Proof.
  intros Hr Hfit Hlen Hcells. induction k as [|k IH]; intros Hk.
  - rewrite Nat.sub_0_r. simpl. symmetry. apply N.div_small, Hfit.
  - destruct (lookup_lt_is_Some_2 cells k) as [x Hx]; [lia|].
    rewrite (take_S_r _ _ _ Hx), read_number_snoc, IH by lia.
    rewrite (Hcells k x Hx), digit_at_step.
    set (b := (value / radix ^ N.of_nat (numdigits - S k))%N).
    replace (value / radix ^ N.of_nat (numdigits - k))%N with (b / radix)%N.
    + rewrite N.mul_comm. symmetry. apply N.div_mod'.
    + unfold b. rewrite N.Div0.div_div, <- pow_step by lia. reflexivity.
Qed.

Lemma cells_read_back radix value lz dppos (cells : list N) :
  (1 <= radix)%N -> (value < radix ^ N.of_nat numdigits)%N ->
  length cells = numdigits ->
  (forall i, i < numdigits -> cells !! i = setValue_cell radix value lz dppos i) ->
  read_number radix cells = value.
Proof.
  intros Hr Hfit Hlen Hcells.
  rewrite <- (take_ge cells numdigits) by lia.
  rewrite (read_number_take radix value); try assumption; try lia.
  - rewrite Nat.sub_diag. apply N.div_1_r.
  - intros i x Hx. apply (setValue_cell_digit radix value lz dppos).
    rewrite <- Hcells; [exact Hx|]. rewrite <- Hlen. eapply lookup_lt_Some, Hx.
Qed.

Lemma setValue_cell_bit7 radix value lz dppos i x :
  setValue_cell radix value lz dppos i = Some x ->
  N.testbit x 7 = (dppos =? i) /\ (x < 256)%N.
Proof.
  unfold setValue_cell. destruct (_ && _) eqn:Hsup.
  - rewrite !andb_true_iff in Hsup. destruct Hsup as [[_ Hlt] _].
    apply Nat.ltb_lt in Hlt.
    destruct (Nat.eqb_spec dppos i); [lia|]. intros [= <-]. split; reflexivity.
  - intros H. split; [eapply glyph_cell_bit7, H|].
    apply glyph_cell_digit in H. apply H.
Qed.

(** X5.  [setValue] and reading the display are a round trip: for a
    radix from 1 to 16 and a value that fits, [setValue] returns true
    and the buffer, read glyph by glyph (a blank for 0), is the value.
    So two values that fit never look the same. *)
Theorem setValue_reads_back radix value lz dppos s :
  (1 <= radix <= 16)%N -> wf s ->
  (value < radix ^ N.of_nat numdigits)%N ->
  exists s',
    setValue radix value lz dppos s = Ok (true, s', []) /\
    read_number radix (_display s') = value.
Proof.
  intros Hr Hwf Hfit.
  destruct (setValue_run radix value lz dppos s Hr Hwf) as (s' & Hset & Hbuf & Hcells).
  exists s'. split.
  - rewrite Hset. do 3 f_equal. apply fits_iff; [lia|exact Hfit].
  - apply (cells_read_back radix value lz dppos); try assumption; [lia|].
    destruct Hbuf as [_ ->]. apply Hwf.
Qed.

(** X6.  For a radix from 1 to 16 [setValue] writes every entry of the
    buffer: what the buffer holds afterwards depends on the arguments
    only, not on what it held before.  In particular a second call with
    the same arguments changes nothing. *)
Theorem setValue_overwrites radix value lz dppos s1 s2 :
  (1 <= radix <= 16)%N -> wf s1 -> wf s2 ->
  exists r s1' s2',
    setValue radix value lz dppos s1 = Ok (r, s1', []) /\
    setValue radix value lz dppos s2 = Ok (r, s2', []) /\
    _display s1' = _display s2' /\
    setValue radix value lz dppos s1' = Ok (r, s1', []).
Proof.
  intros Hr Hwf1 Hwf2.
  destruct (setValue_run radix value lz dppos s1 Hr Hwf1) as (s1' & Hset1 & Hbuf1 & Hc1).
  destruct (setValue_run radix value lz dppos s2 Hr Hwf2) as (s2' & Hset2 & Hbuf2 & Hc2).
  assert (Hwf1' : wf s1') by (eapply buffer_only_wf; eassumption).
  assert (Hwf2' : wf s2') by (eapply buffer_only_wf; eassumption).
  assert (Hsame : forall t t', wf t -> wf t' ->
            (forall i, i < numdigits -> _display t !! i = setValue_cell radix value lz dppos i) ->
            (forall i, i < numdigits -> _display t' !! i = setValue_cell radix value lz dppos i) ->
            _display t = _display t').
  { intros t t' (_ & _ & Ht) (_ & _ & Ht') Hc Hc'. apply list_eq. intros i.
    destruct (Nat.lt_ge_cases i numdigits) as [Hi|Hi].
    - rewrite Hc, Hc' by exact Hi. reflexivity.
    - rewrite !lookup_ge_None_2 by lia. reflexivity. }
  eexists _, s1', s2'. split; [exact Hset1|]. split; [exact Hset2|].
  split; [apply Hsame; assumption|].
  destruct (setValue_run radix value lz dppos s1' Hr Hwf1') as (s3 & Hset3 & Hbuf3 & Hc3).
  assert (Hwf3 : wf s3) by (eapply buffer_only_wf; eassumption).
  assert (Hd3 : _display s3 = _display s1') by (apply Hsame; assumption).
  rewrite Hset3. do 2 f_equal. f_equal.
  destruct Hbuf3 as [-> _]. rewrite Hd3. destruct s1'; reflexivity.
Qed.

(** ** The shape of what an operation does *)

Lemma same_lines_refl s : same_lines s s.
Proof. repeat split. Qed.

Lemma same_lines_wf s s1 : same_lines s s1 -> wf s -> wf s1.
Proof.
  intros (Hd & Hs & _ & Hl) (H1 & H2 & H3). unfold wf.
  rewrite Hd, Hs, Hl. auto.
Qed.

Lemma buffer_only_same_lines s s1 : buffer_only s s1 -> same_lines s s1.
Proof. intros [-> H]. repeat split. exact H. Qed.

(** Every operation other than [begin] changes the buffer or the scratch
    pad, and then either is done or calls [showDigit]; an operation
    without "show" override is done. *)
Lemma exec_shape o s s' tr :
  wf s -> is_begin o = false -> exec o s = Ok (tt, s', tr) ->
  exists s1,
    same_lines s s1 /\
    ((tr = [] /\ s' = s1) \/
     (quiet o = false /\
      exists newdigit,
        newdigit <= numdigits /\
        tr = showDigit_trace newdigit s1 /\
        s' = with_curdigit (nat_to_byte newdigit) s1)).
Proof.
  intros Hwf Hnb.
  assert (Hset : forall index bitmap sh s2 t2,
            setSegments index bitmap sh s = Ok (tt, s2, t2) ->
            exists s1, same_lines s s1 /\
              ((t2 = [] /\ s2 = s1) \/
               (negb sh = false /\ exists newdigit, newdigit <= numdigits /\
                  t2 = showDigit_trace newdigit s1 /\
                  s2 = with_curdigit (nat_to_byte newdigit) s1))).
  { intros index bitmap sh s2 t2.
    destruct (Nat.lt_ge_cases index numdigits) as [Hi|Hi].
    - rewrite (setSegments_in index bitmap sh s Hwf Hi).
      set (s1 := with_display _ s).
      assert (same_lines s s1) by (apply buffer_only_same_lines, buffer_only_insert).
      destruct sh; intros [= <- <-]; exists s1; (split; [assumption|]).
      + right. split; [reflexivity|]. exists index. split; [lia|]. auto.
      + left. auto.
    - rewrite setSegments_out by exact Hi. intros [= <- <-].
      exists s. split; [apply same_lines_refl|]. left. auto. }
  assert (Hshow : forall newdigit, newdigit <= numdigits ->
            showDigit newdigit s = Ok (tt, s', tr) ->
            exists newdigit, newdigit <= numdigits /\
              tr = showDigit_trace newdigit s /\
              s' = with_curdigit (nat_to_byte newdigit) s).
  { intros newdigit Hle. rewrite showDigit_run by exact Hwf. intros [= <- <-].
    exists newdigit. auto. }
  destruct o as [dps' sps' blank| |index x|index|onoff| |index bitmap sh
                |index num dp sh|radix value lz dppos]; cbn [exec quiet];
    try discriminate Hnb.
  - destruct (Nat.lt_ge_cases (_curdigit s) numdigits) as [Hc|Hc].
    + rewrite show_next by exact Hc. intros H. apply Hshow in H.
      * exists s. split; [apply same_lines_refl|]. right. auto.
      * apply Nat.lt_le_incl, Nat.mod_upper_bound. lia.
    + rewrite show_blank by exact Hc. intros [= <- <-].
      exists s. split; [apply same_lines_refl|]. left. auto.
  - unfold operator_index.
    destruct (Nat.ltb_spec index numdigits) as [Hi|Hi]; simpl.
    + rewrite write_display_lt by (destruct Hwf as (_ & _ & ->); exact Hi).
      intros [= <- <-]. eexists. split; [|left; auto].
      apply buffer_only_same_lines, buffer_only_insert.
    + intros [= <- <-]. eexists. split; [|left; auto]. repeat split.
  - unfold discard. intros H.
    apply bind_inv in H as (x & s1 & t1 & t2 & Hload & Hret & ->).
    injection Hret as <- <-.
    assert (s1 = s /\ t1 = []) as [-> ->].
    { unfold operator_index in Hload.
      destruct (index <? numdigits); simpl in Hload.
      - unfold read_display, array_read in Hload.
        destruct (_ !! _); [|discriminate]. simplify_eq. auto.
      - simplify_eq. auto. }
    exists s. split; [apply same_lines_refl|]. left. auto.
  - intros H. apply Hshow in H; [|destruct onoff; lia].
    exists s. split; [apply same_lines_refl|]. right. auto.
  - intros [= <- <-]. exists s. split; [apply same_lines_refl|]. left. auto.
  - apply Hset.
  - destruct (Nat.lt_ge_cases index numdigits) as [Hi|Hi].
    2:{ rewrite setNumber_out_index by exact Hi. intros [= <- <-].
        exists s. split; [apply same_lines_refl|]. left. auto. }
    destruct (N.lt_total (to_byte num) 16) as [Hnum|[Hnum|Hnum]].
    + destruct (glyph_cell_lt (to_byte num) dp Hnum) as [c Hc].
      rewrite (setNumber_glyph index num dp sh s c Hi Hc). apply Hset.
    + rewrite setNumber_16 by assumption. discriminate.
    + rewrite setNumber_out_num by exact Hnum. intros [= <- <-].
      exists s. split; [apply same_lines_refl|]. left. auto.
  - unfold discard, setValue. intros H.
    apply bind_inv in H as (r & s1 & t1 & t2 & Hval & Hret & ->).
    injection Hret as <- <-.
    apply bind_inv in Hval as (v & s2 & t3 & t4 & Hloop & Hret & ->).
    injection Hret as _ <- <-.
    apply setValue_loop_frame in Hloop as (-> & Hbuf & _); [|exact Hwf].
    exists s2. split; [apply buffer_only_same_lines, Hbuf|]. left. auto.
Qed.

(** X7.  An operation without "show" override - the indexed accessor,
    [isBlank], [setValue], [setSegments] and [setNumber] with [show]
    false - writes no line and leaves the cursor and the pin numbers
    as they are.  On a blanked display the same holds of [show] and of
    [setBlank(true)]: nothing reaches the lines until the display is
    unblanked or a "show" override is used. *)
Theorem quiet_operations_write_nothing o s s' tr :
  wf s -> exec o s = Ok (tt, s', tr) ->
  (quiet o = true -> tr = [] /\ same_lines s s') /\
  (numdigits <= _curdigit s -> numdigits <= 255 ->
   o = OpShow \/ o = OpSetBlank true ->
   tr = [] /\ numdigits <= _curdigit s').
Proof.
  intros Hwf Hexec. split.
  - intros Hq.
    assert (Hnb : is_begin o = false) by (destruct o; try reflexivity; discriminate).
    destruct (exec_shape o s s' tr Hwf Hnb Hexec) as (s1 & Hsame & [[-> ->]|[Hq' _]]).
    + auto.
    + congruence.
  - intros Hblank Hn [-> | ->]; cbn [exec] in Hexec.
    + rewrite show_blank in Hexec by exact Hblank. injection Hexec as <- <-. auto.
    + unfold setBlank in Hexec. rewrite showDigit_run in Hexec by exact Hwf.
      injection Hexec as <- <-. simpl. rewrite nat_to_byte_small by lia.
      split; [|lia]. unfold showDigit_trace.
      destruct (Nat.ltb_spec (_curdigit s) numdigits); [lia|].
      destruct (Nat.ltb_spec numdigits numdigits); [lia|reflexivity].
Qed.

(** ** Which lines are written *)

Lemma touches_weaken pins pins' e :
  (forall p, p ∈ pins -> p ∈ pins') -> touches pins e -> touches pins' e.
Proof. destruct e; simpl; auto. Qed.

Lemma pin_of_elem (pins : list N) k : k < length pins -> pin_of pins k ∈ pins.
Proof. intros H. eapply list_elem_of_lookup_2, pin_of_lookup, H. Qed.

Lemma segment_writes_touch sps b :
  length sps = numsegments ->
  Forall (fun e => touches sps e /\ is_write e) (segment_writes sps b).
Proof.
  intros Hlen. unfold segment_writes. apply Forall_fmap, Forall_forall.
  intros k Hk. apply elem_of_seq in Hk. simpl. split; [|exact I].
  apply pin_of_elem. lia.
Qed.

Lemma showDigit_trace_touches newdigit s :
  wf s ->
  Forall (fun e => touches (_digitpins s ++ _segmentpins s) e /\ is_write e)
         (showDigit_trace newdigit s).
Proof.
  intros (Hdp & Hsp & Hd). unfold showDigit_trace.
  assert (Hdig : forall k l, k < numdigits ->
            touches (_digitpins s ++ _segmentpins s)
                    (DigitalWrite (pin_of (_digitpins s) k) l)).
  { intros k l Hk. simpl. apply elem_of_app. left. apply pin_of_elem. lia. }
  apply Forall_app. split.
  - destruct (Nat.ltb_spec (_curdigit s) numdigits) as [Hc|Hc]; [|constructor].
    apply Forall_app. split.
    + destruct (_ =? _); constructor; [|constructor]. split; [auto|exact I].
    + eapply Forall_impl; [apply segment_writes_touch, Hsp|].
      intros e [He Hw]. split; [|exact Hw].
      eapply touches_weaken; [|exact He]. intros p Hp. apply elem_of_app. auto.
  - destruct (Nat.ltb_spec newdigit numdigits) as [Hnew|Hnew]; constructor;
      [|constructor]. split; [auto|exact I].
Qed.

Lemma init_trace_touches off pins : Forall (touches pins) (init_trace off pins).
Proof.
  unfold init_trace. apply Forall_forall. intros e He.
  apply list_elem_of_In, in_flat_map in He as (p & Hp & He).
  apply list_elem_of_In in Hp.
  destruct He as [<-|[<-|[]]]; exact Hp.
Qed.

Lemma exec_touches o s s' tr :
  wf s -> is_begin o = false -> exec o s = Ok (tt, s', tr) ->
  Forall (fun e => touches (_digitpins s ++ _segmentpins s) e /\ is_write e) tr /\
  _digitpins s' = _digitpins s /\ _segmentpins s' = _segmentpins s /\ wf s'.
Proof.
  intros Hwf Hnb Hexec.
  destruct (exec_shape o s s' tr Hwf Hnb Hexec)
    as (s1 & Hsame & [[-> ->]|(_ & newdigit & _ & -> & ->)]).
  - assert (Hwf1 : wf s1) by (eapply same_lines_wf; eassumption).
    split; [constructor|]. destruct Hsame as (Hd & Hs & _). auto.
  - assert (Hwf1 : wf s1) by (eapply same_lines_wf; eassumption).
    destruct Hsame as (Hd & Hs & _). rewrite <- Hd, <- Hs.
    split; [apply showDigit_trace_touches, Hwf1|]. auto.
Qed.

Lemma begin_trace_touches dps sps newdigit s2 :
  wf s2 -> _digitpins s2 = dps -> _segmentpins s2 = sps ->
  Forall (touches (dps ++ sps))
         (init_trace (negb digiton) dps ++ init_trace (negb segmenton) sps
          ++ showDigit_trace newdigit s2).
Proof.
  intros Hwf2 Hd Hs. apply Forall_app. split; [|apply Forall_app; split].
  - eapply Forall_impl; [apply init_trace_touches|].
    intros e. apply touches_weaken. intros p. rewrite elem_of_app. auto.
  - eapply Forall_impl; [apply init_trace_touches|].
    intros e. apply touches_weaken. intros p. rewrite elem_of_app. auto.
  - eapply Forall_impl; [apply (showDigit_trace_touches _ s2 Hwf2)|].
    rewrite Hd, Hs. intros e [He _]. exact He.
Qed.

Lemma run_touches dps sps ops : forall s s' tr,
  Forall (same_binding dps sps) ops ->
  length dps = numdigits -> length sps = numsegments ->
  wf s -> _digitpins s = dps -> _segmentpins s = sps ->
  run ops s = Ok (tt, s', tr) ->
  Forall (touches (dps ++ sps)) tr /\
  (forallb (fun o => negb (is_begin o)) ops = true -> Forall is_write tr).
Proof.
  induction ops as [|o ops IH]; intros s s' tr Hsame Hdl Hsl Hwf Hd Hs; cbn [run].
  - intros [= <- <-]. split; constructor.
  - apply Forall_cons in Hsame as [Ho Hops]. intros H.
    apply bind_inv in H as ([] & s1 & t1 & t2 & Hexec & Hrun & ->).
    destruct (is_begin o) eqn:Hb.
    + destruct o as [dps' sps' blank| | | | | | | |]; try discriminate Hb.
      destruct Ho as [-> ->]. cbn [exec] in Hexec.
      rewrite begin_run in Hexec by assumption. injection Hexec as <- <-.
      set (s2 := with_segmentpins sps (with_digitpins dps s)) in *.
      assert (Hwf2 : wf s2) by (destruct Hwf as (? & ? & ?); repeat split; assumption).
      destruct (IH _ _ _ Hops Hdl Hsl (wf_with_curdigit _ s2 Hwf2) eq_refl eq_refl Hrun)
        as [Ht2 _].
      split; [|simpl; discriminate].
      apply Forall_app. split; [|exact Ht2].
      apply begin_trace_touches; [exact Hwf2|reflexivity|reflexivity].
    + destruct (exec_touches o s s1 t1 Hwf Hb Hexec) as (Ht1 & Hd1 & Hs1 & Hwf1).
      rewrite Hd, Hs in *.
      destruct (IH _ _ _ Hops Hdl Hsl Hwf1 Hd1 Hs1 Hrun) as [Ht2 Hw2].
      split.
      * apply Forall_app. split; [|exact Ht2].
        eapply Forall_impl; [exact Ht1|]. intros e [He _]. exact He.
      * cbn [forallb]. rewrite Hb. simpl. intros Hall.
        apply Forall_app. split; [|auto].
        eapply Forall_impl; [exact Ht1|]. intros e [_ He]. exact He.
Qed.

(** X8.  After [begin] has bound the lines, the driver touches no other
    pin: every output event of every later operation is on one of the
    digit-select or segment lines that were bound.  And only [begin]
    configures pins: the operations after it only write levels. *)
Theorem only_bound_lines_are_written dps sps blank ops s s1 t1 s' tr :
  wf s -> length dps = numdigits -> length sps = numsegments ->
  Forall (same_binding dps sps) ops ->
  begin dps sps blank s = Ok (tt, s1, t1) ->
  run ops s1 = Ok (tt, s', tr) ->
  Forall (touches (dps ++ sps)) (t1 ++ tr) /\
  (forallb (fun o => negb (is_begin o)) ops = true -> Forall is_write tr).
Proof.
  intros Hwf Hdl Hsl Hsame Hbegin Hrun.
  rewrite begin_run in Hbegin by assumption. injection Hbegin as <- <-.
  set (s2 := with_segmentpins sps (with_digitpins dps s)) in *.
  assert (Hwf2 : wf s2) by (destruct Hwf as (? & ? & ?); repeat split; assumption).
  destruct (run_touches dps sps ops _ _ _ Hsame Hdl Hsl
              (wf_with_curdigit _ s2 Hwf2) eq_refl eq_refl Hrun) as [Ht Hw].
  split; [|exact Hw].
  apply Forall_app. split; [|exact Ht].
  apply begin_trace_touches; [exact Hwf2|reflexivity|reflexivity].
Qed.

(** ** Leaving the blanked state *)

(** X9.  On a blanked display [showDigit] of a digit - so also
    [setBlank(false)], and [setSegments] with [show] true - has a single
    output: the line of that digit driven active.  The segment lines are
    not written: they keep the levels they have, whatever the buffer
    holds, until the next [show]. *)
Theorem unblanking_writes_no_segment_line newdigit s :
  wf s -> numdigits <= _curdigit s -> newdigit < numdigits ->
  let on := [DigitalWrite (pin_of (_digitpins s) newdigit) digiton] in
  showDigit newdigit s = Ok (tt, with_curdigit (nat_to_byte newdigit) s, on) /\
  (newdigit = 0 -> setBlank false s = Ok (tt, with_curdigit 0 s, on)) /\
  (forall bitmap,
      setSegments newdigit bitmap true s =
      Ok (tt, with_curdigit (nat_to_byte newdigit)
                (with_display (<[newdigit := to_byte bitmap]> (_display s)) s),
          on)).
Proof.
  intros Hwf Hblank Hnew on.
  assert (Htrace : forall s1, _curdigit s1 = _curdigit s ->
            _digitpins s1 = _digitpins s -> showDigit_trace newdigit s1 = on).
  { intros s1 Hc Hd. unfold showDigit_trace. rewrite Hc, Hd.
    destruct (Nat.ltb_spec (_curdigit s) numdigits); [lia|].
    destruct (Nat.ltb_spec newdigit numdigits); [reflexivity|lia]. }
  split; [|split].
  - rewrite showDigit_run, Htrace by auto. reflexivity.
  - intros ->. unfold setBlank. rewrite showDigit_run, Htrace by auto. reflexivity.
  - intros bitmap. rewrite (setSegments_in newdigit bitmap true s Hwf Hnew).
    rewrite Htrace by reflexivity. reflexivity.
Qed.

(** X10.  A "show" override re-enables the display, as the source says:
    after [setSegments] or [setNumber] with [show] true and a digit index
    in range, the cursor is on that digit and [isBlank] returns false,
    whether the display was blanked before or not. *)
Theorem show_override_unblanks index bitmap num dp s :
  wf s -> numdigits <= 256 -> index < numdigits -> (num < 16)%N ->
  (exists s' tr,
      setSegments index bitmap true s = Ok (tt, s', tr) /\
      _curdigit s' = index /\ isBlank s' = Ok (false, s', []) /\
      _display s' = <[index := to_byte bitmap]> (_display s)) /\
  (exists s' tr,
      setNumber index num dp true s = Ok (tt, s', tr) /\
      _curdigit s' = index /\ isBlank s' = Ok (false, s', []) /\
      glyph_cell num dp = _display s' !! index).
Proof.
  intros Hwf Hn Hi Hnum.
  assert (Hset : forall c, exists s' tr,
            setSegments index c true s = Ok (tt, s', tr) /\
            _curdigit s' = index /\ isBlank s' = Ok (false, s', []) /\
            _display s' = <[index := to_byte c]> (_display s)).
  { intros c. rewrite (setSegments_in index c true s Hwf Hi).
    eexists _, _. split; [reflexivity|]. simpl.
    rewrite nat_to_byte_small by lia. split; [reflexivity|]. split; [|reflexivity].
    rewrite isBlank_run. simpl.
    destruct (Nat.leb_spec numdigits index); [lia|reflexivity]. }
  split; [apply Hset|].
  destruct (glyph_cell_lt num dp Hnum) as [c Hc].
  destruct (glyph_cell_digit num dp c Hc) as (_ & _ & Hbyte).
  destruct (Hset c) as (s' & tr & Hs & Hcur & Hblank & Hd).
  exists s', tr.
  rewrite (setNumber_glyph index num dp true s c Hi)
    by (rewrite to_byte_small by lia; exact Hc).
  split; [exact Hs|]. split; [exact Hcur|]. split; [exact Hblank|].
  rewrite Hc, Hd, to_byte_small by exact Hbyte. symmetry.
  apply list_lookup_insert_eq. destruct Hwf as (_ & _ & ->). exact Hi.
Qed.

(** ** The levels of the lines *)

Lemma replay_writes (f : nat -> N) (g : nat -> bool) lv m :
  (forall i j, i < m -> j < m -> f i = f j -> i = j) ->
  forall j, j < m ->
    replay (map (fun k => DigitalWrite (f k) (g k)) (seq 0 m)) lv !! f j = Some (g j).
Proof.
  induction m as [|m IH]; intros Hinj j Hj; [lia|].
  rewrite seq_S, map_app, replay_app. simpl.
  destruct (Nat.eq_dec j m) as [->|Hne].
  - apply lookup_insert_eq.
  - rewrite lookup_insert_ne by (intros E; apply Hinj in E; lia).
    apply IH; [|lia]. intros i i' Hi Hi'. apply Hinj; lia.
Qed.

Lemma replay_other (tr : list event) (p : N) : forall lv,
  Forall (fun e => forall l, e <> DigitalWrite p l) tr ->
  replay tr lv !! p = lv !! p.
Proof.
  induction tr as [|e tr IH]; intros lv Hall; [reflexivity|].
  apply Forall_cons in Hall as [He Htr]. simpl. rewrite IH by exact Htr.
  destruct e as [q|q l]; simpl; [reflexivity|].
  apply lookup_insert_ne. intros ->. exact (He l eq_refl).
Qed.

Lemma segment_writes_levels sps b lv k :
  NoDup sps -> length sps = numsegments -> k < numsegments ->
  replay (segment_writes sps b) lv !! pin_of sps k =
  Some (seg_level (N.testbit b (N.of_nat k))).
Proof.
  intros Hnd Hlen Hk. unfold segment_writes.
  apply (replay_writes (pin_of sps)
           (fun k => seg_level (N.testbit b (N.of_nat k)))); [|exact Hk].
  intros i j Hi Hj E.
  eapply NoDup_lookup; [exact Hnd|apply pin_of_lookup; lia|].
  rewrite E. apply pin_of_lookup. lia.
Qed.

Lemma segment_writes_other sps b p :
  length sps = numsegments -> p ∉ sps ->
  Forall (fun e => forall l, e <> DigitalWrite p l) (segment_writes sps b).
Proof.
  intros Hlen Hp. unfold segment_writes. apply Forall_fmap, Forall_forall.
  intros k Hk. apply elem_of_seq in Hk. simpl. intros l [= E _].
  apply Hp. rewrite <- E. apply pin_of_elem. lia.
Qed.

(** X11.  What the lines carry after [showDigit], called while a digit
    is shown, on a display whose segment lines are distinct pins and
    different from the digit lines: segment line [k] has the on level
    exactly when bit [k] of the buffer entry of the new digit is set (all
    are off when the call blanks the display), the line of the new digit
    is active, and the line of the digit shown before is inactive. *)
Theorem lines_show_the_buffer newdigit s lv :
  wf s -> _curdigit s < numdigits ->
  NoDup (_segmentpins s) -> separate (_digitpins s) (_segmentpins s) ->
  let lv' := replay (showDigit_trace newdigit s) lv in
  (forall k, k < numsegments ->
     lv' !! pin_of (_segmentpins s) k =
     Some (seg_level (N.testbit (pattern_of s newdigit) (N.of_nat k)))) /\
  (newdigit < numdigits ->
     lv' !! pin_of (_digitpins s) newdigit = Some digiton) /\
  (newdigit <> _curdigit s ->
   (newdigit < numdigits ->
      pin_of (_digitpins s) newdigit <> pin_of (_digitpins s) (_curdigit s)) ->
   lv' !! pin_of (_digitpins s) (_curdigit s) = Some (negb digiton)).
Proof.
  intros Hwf Hc Hnd Hsep lv'. destruct Hwf as (Hdl & Hsl & Hd).
  unfold lv', showDigit_trace.
  destruct (Nat.ltb_spec (_curdigit s) numdigits) as [_|]; [|lia].
  set (off := if newdigit =? _curdigit s then []
              else [DigitalWrite (pin_of (_digitpins s) (_curdigit s)) (negb digiton)]).
  set (segs := segment_writes (_segmentpins s) (pattern_of s newdigit)).
  set (on := if newdigit <? numdigits
             then [DigitalWrite (pin_of (_digitpins s) newdigit) digiton] else []).
  assert (Hdig : forall k, k < numdigits -> pin_of (_digitpins s) k ∉ _segmentpins s).
  { intros k Hk. apply Hsep, pin_of_elem. lia. }
  rewrite !replay_app. split; [|split].
  - intros k Hk.
    rewrite (replay_other on).
    + apply segment_writes_levels; assumption.
    + unfold on. destruct (Nat.ltb_spec newdigit numdigits); constructor; [|constructor].
      intros l [= E _]. apply (Hdig newdigit); [assumption|].
      rewrite E. apply pin_of_elem. lia.
  - intros Hnew. unfold on.
    destruct (Nat.ltb_spec newdigit numdigits); [|lia]. simpl.
    apply lookup_insert_eq.
  - intros Hne Hpins.
    rewrite (replay_other on), (replay_other segs).
    + unfold off. destruct (Nat.eqb_spec newdigit (_curdigit s)); [contradiction|].
      simpl. apply lookup_insert_eq.
    + apply segment_writes_other; [exact Hsl|apply Hdig, Hc].
    + unfold on. destruct (Nat.ltb_spec newdigit numdigits) as [Hnew|]; constructor;
        [|constructor].
      intros l [= E _]. apply (Hpins Hnew). exact E.
Qed.

(** X12.  On a display without decimal point, bit 7 of the buffer never
    reaches a line: two buffers that agree in their bits 0 to 6 give
    [showDigit] the same output. *)
Theorem decimal_point_bit_is_not_output newdigit (d1 d2 : list N) s :
  havedp = false ->
  (forall i, N.land (default 0%N (d1 !! i)) 0x7F = N.land (default 0%N (d2 !! i)) 0x7F) ->
  showDigit_trace newdigit (with_display d1 s) =
  showDigit_trace newdigit (with_display d2 s).
Proof.
  intros Hdp Hagree.
  assert (Hseg : forall sp b b', N.land b 0x7F = N.land b' 0x7F ->
            segment_writes sp b = segment_writes sp b').
  { intros sp b b' Hb. unfold segment_writes, numsegments. rewrite Hdp.
    apply map_ext_in. intros k Hk. apply in_seq in Hk. do 2 f_equal.
    assert (Hbit : forall x, N.testbit x (N.of_nat k) = N.testbit (N.land x 0x7F) (N.of_nat k)).
    { intros x. rewrite N.land_spec.
      replace (N.testbit 127 (N.of_nat k)) with true; [symmetry; apply andb_true_r|].
      do 7 (destruct k as [|k]; [reflexivity|]). lia. }
    rewrite (Hbit b), (Hbit b'), Hb. reflexivity. }
  unfold showDigit_trace, pattern_of. simpl.
  destruct (_curdigit s <? numdigits); [|reflexivity].
  f_equal. f_equal. apply Hseg.
  destruct (newdigit <? numdigits); [apply Hagree|reflexivity].
Qed.

(** ** The arrays given to [begin] *)

Lemma for_upto_ext (body body' : nat -> M unit) count : forall i s,
  (forall j s', i <= j < i + count -> body j s' = body' j s') ->
  for_upto count i body s = for_upto count i body' s.
Proof.
  induction count as [|count IH]; intros i s Hext; cbn [for_upto]; [reflexivity|].
  unfold bind. rewrite Hext by lia.
  destruct (body' i s) as [[[[] s1] t1]|]; [|reflexivity].
  rewrite IH; [reflexivity|]. intros j s' Hj. apply Hext. lia.
Qed.

Lemma bind_ext {A B} (m m' : M A) (f f' : A -> M B) s :
  m s = m' s -> (forall a s1, f a s1 = f' a s1) -> bind m f s = bind m' f' s.
Proof.
  intros Hm Hf. unfold bind. rewrite Hm.
  destruct (m' s) as [[[a s1] t1]|]; [|reflexivity]. rewrite Hf. reflexivity.
Qed.

Lemma copy_loop_take (write : nat -> N -> M unit) (off : bool) (src : list N) n s :
  n <= length src ->
  for_upto n 0 (fun i =>
    p <- array_read src i ;; write i p ;; pinMode p ;; digitalWrite p off) s =
  for_upto n 0 (fun i =>
    p <- array_read (take n src) i ;; write i p ;; pinMode p ;; digitalWrite p off) s.
Proof.
  intros Hn. apply for_upto_ext. intros j s' Hj.
  unfold bind at 1 3. unfold array_read.
  rewrite lookup_take_lt by lia. reflexivity.
Qed.

Lemma copy_loop_short (get : state -> list N) (set : list N -> state -> state)
    (off : bool) (src : list N) count : forall i s,
  i <= length src -> length src < i + count ->
  for_upto count i (fun i =>
    p <- array_read src i ;;
    array_write get set i p ;;
    pinMode p ;;
    digitalWrite p off) s = OutOfBounds.
Proof.
  induction count as [|count IH]; intros i s Hi Hlen; [lia|]. cbn [for_upto].
  unfold bind at 1. unfold bind at 1. unfold array_read at 1.
  destruct (src !! i) as [p|] eqn:Hp; [|reflexivity].
  apply lookup_lt_Some in Hp.
  unfold bind at 1. unfold array_write at 1.
  destruct (i <? length (get s)); [|reflexivity].
  unfold bind at 1. unfold pinMode at 1, digitalWrite at 1.
  rewrite IH by (simpl; lia). reflexivity.
Qed.

(** X13.  [begin] with arrays that are long enough: it returns, having
    stored the first [numdigits] digit pins and the first [numsegments]
    segment pins (further elements are not looked at) and left the buffer
    alone; its output starts with every one of these lines made an
    output and driven to its off level, digit lines first, before
    [setBlank] runs; and [isBlank] afterwards returns [blank]. *)
Theorem begin_initialises dps sps (blank : bool) s :
  wf s -> valid_config ->
  numdigits <= length dps -> numsegments <= length sps ->
  exists s' rest,
    begin dps sps blank s =
      Ok (tt, s', init_trace (negb digiton) (take numdigits dps)
                  ++ init_trace (negb segmenton) (take numsegments sps) ++ rest) /\
    _digitpins s' = take numdigits dps /\
    _segmentpins s' = take numsegments sps /\
    _display s' = _display s /\
    isBlank s' = Ok (blank, s', []).
Proof.
  intros Hwf [Hn1 Hn2] Hdl Hsl.
  assert (Htake : begin dps sps blank s =
                  begin (take numdigits dps) (take numsegments sps) blank s).
  { unfold begin. apply bind_ext; [apply copy_loop_take, Hdl|]. intros _ s1.
    apply bind_ext; [apply copy_loop_take, Hsl|reflexivity]. }
  rewrite Htake, begin_run
    by (try exact Hwf; rewrite length_take_le by assumption; reflexivity).
  eexists _, _. split; [reflexivity|]. simpl.
  split; [reflexivity|]. split; [reflexivity|]. split; [reflexivity|].
  rewrite isBlank_run. simpl. do 2 f_equal. f_equal.
  destruct blank; rewrite nat_to_byte_small by lia.
  - apply Nat.leb_refl.
  - apply Nat.leb_gt. lia.
Qed.

(** X14.  [begin] with an array that is too short reads outside it:
    the loops run over [numdigits] and [numsegments] elements whatever
    the caller passes. *)
Theorem begin_short_array dps sps blank s :
  wf s -> length dps < numdigits \/ length sps < numsegments ->
  begin dps sps blank s = OutOfBounds.
Proof.
  intros Hwf Hshort. unfold begin. unfold bind at 1.
  destruct (Nat.lt_ge_cases (length dps) numdigits) as [Hd|Hd].
  - unfold write_digitpins. rewrite copy_loop_short by lia. reflexivity.
  - destruct Hshort as [|Hs]; [lia|].
    destruct (for_upto numdigits 0 _ s) as [[[[] s1] t1]|]; [|reflexivity].
    unfold bind at 1. unfold write_segmentpins.
    rewrite copy_loop_short by lia. reflexivity.
Qed.

End Display7SegMore.

(** ** What the sketch shows *)

Lemma read_number_ext radix (l l' : list N) :
  glyph_digit <$> l = glyph_digit <$> l' ->
  read_number radix l = read_number radix l'.
Proof.
  unfold read_number. generalize 0%N.
  revert l'. induction l as [|x l IH]; intros [|x' l'] acc H; try discriminate H.
  - reflexivity.
  - injection H as Hx Hl. simpl. rewrite Hx. apply IH, Hl.
Qed.

Lemma decimal_point_or (x : N) :
  (x < 256)%N ->
  to_byte (N.lor x 0x80) = N.lor x 0x80 /\
  glyph_digit (N.lor x 0x80) = glyph_digit x /\
  N.testbit (N.lor x 0x80) 7 = true.
Proof.
  intros Hx. split; [|split].
  - unfold to_byte. change 256%N with (2 ^ 8)%N.
    rewrite <- N.land_ones, N.land_lor_distr_l, N.land_ones.
    rewrite (N.mod_small x) by exact Hx. reflexivity.
  - unfold glyph_digit. rewrite N.land_lor_distr_l.
    change (N.land 128 127) with 0%N. rewrite N.lor_0_r. reflexivity.
  - rewrite N.lor_spec. apply orb_true_r.
Qed.

(** X15.  What [loop] puts into the buffer when it updates the display,
    for a counter that fits: the buffer reads as the counter; the
    decimal point is lit at position 2, after the seconds, at position
    0, after the minutes, exactly when the counter is at least 1000,
    and nowhere else.  No line is written. *)
Theorem refresh_shows_the_counter (c : N) (d : state) :
  wf (tpl:=timer) d -> (c < 10000)%N ->
  exists d',
    refresh c d = Ok (tt, d', []) /\
    buffer_only d d' /\
    read_number 10 (_display d') = c /\
    forall i x, _display d' !! i = Some x ->
      N.testbit x 7 = ((i =? 2) || ((i =? 0) && (1000 <=? c)%N)).
Proof.
  intros Hwf Hc. unfold refresh.
  destruct (setValue_run (tpl:=timer) 10 c false 2 d) as (d1 & Hset & Hbuf & Hcells);
    [lia|exact Hwf|].
  erewrite bind_Ok by exact Hset.
  assert (Hlen : length (_display d1) = 4).
  { destruct Hbuf as [_ ->]. apply Hwf. }
  assert (Hread : read_number 10 (_display d1) = c).
  { apply (cells_read_back (tpl:=timer) 10 c false 2); [lia|exact Hc|exact Hlen|exact Hcells]. }
  assert (Hbits : forall i x, _display d1 !! i = Some x ->
            N.testbit x 7 = (2 =? i) /\ (x < 256)%N).
  { intros i x Hx. apply (setValue_cell_bit7 (tpl:=timer) 10 c false 2 i).
    rewrite <- Hcells; [exact Hx|]. apply lookup_lt_Some in Hx. simpl. lia. }
  destruct (N.leb_spec 1000 c) as [Hmin|Hmin].
  - destruct (lookup_lt_is_Some_2 (_display d1) 0) as [x Hx]; [lia|].
    destruct (Hbits 0 x Hx) as [_ Hbyte].
    destruct (decimal_point_or x Hbyte) as (Hb & Hg & Ht).
    change (operator_index (tpl:=timer) 0) with (LDisplay 0). cbn [load store].
    unfold read_display. erewrite bind_Ok by (apply array_read_Some, Hx).
    rewrite write_display_lt by lia. rewrite Hb.
    eexists. split; [reflexivity|].
    split; [eapply buffer_only_trans; [exact Hbuf|apply buffer_only_insert]|].
    simpl. split.
    + rewrite <- Hread. apply read_number_ext.
      rewrite list_fmap_insert, Hg. apply list_insert_id.
      rewrite list_lookup_fmap, Hx. reflexivity.
    + intros i y Hy. destruct (Nat.eq_dec i 0) as [->|Hne].
      * rewrite list_lookup_insert_eq in Hy by lia. injection Hy as <-. exact Ht.
      * rewrite list_lookup_insert_ne in Hy by lia.
        destruct (Hbits i y Hy) as [-> _].
        destruct i as [|i]; [lia|]. rewrite Nat.eqb_sym. simpl.
        rewrite orb_false_r. reflexivity.
  - eexists. split; [reflexivity|]. split; [exact Hbuf|]. split; [exact Hread|].
    intros i y Hy. destruct (Hbits i y Hy) as [-> _].
    rewrite Nat.eqb_sym, andb_false_r, orb_false_r. reflexivity.
Qed.

(** * The further properties on the timer *)

Lemma counter_reset_never_taken_witness :
  (16 = 16 \/ 16 = 32)%N /\
  (counter_after 16 599 mod 1000 < 600)%N /\
  bump 16 (counter_after 16 599) <> 9999%N /\
  next_counter 16 (counter_after 16 599) = bump 16 (counter_after 16 599).
Proof.
  split; [left; reflexivity|].
  apply (counter_reset_never_taken 16 599). left. reflexivity.
Defined.

Lemma counter_shows_time_witness :
  (16 = 16 \/ 16 = 32)%N /\
  (N.of_nat 725 / 600 * 1000 + 1000 <= 2 ^ 16)%N /\
  wf (tpl:=timer) timer_dash /\
  counter_after 16 725 = 1125%N /\
  exists s',
    setValue (tpl:=timer) 10 (counter_after 16 725) false 2 timer_dash =
    Ok (true, s', []).
Proof.
  assert (Hk : (N.of_nat 725 / 600 * 1000 + 1000 <= 2 ^ 16)%N)
    by (vm_compute; discriminate).
  split; [left; reflexivity|]. split; [exact Hk|]. split; [timer_wf|].
  apply (counter_shows_time 16 725 timer_dash); [left; reflexivity|exact Hk|timer_wf].
Defined.

Lemma setNumber_glyph_decodes_witness :
  wf (tpl:=timer) timer_1234 /\ 1 < 4 /\ (10 < 16)%N /\
  exists x,
    setNumber (tpl:=timer) 1 10 true false timer_1234 =
      Ok (tt, with_display (<[1 := x]> (_display timer_1234)) timer_1234, []) /\
    glyph_digit x = 10%N /\ N.testbit x 7 = true /\ N.land x 0x7F <> 0%N.
Proof.
  split; [timer_wf|]. split; [lia|]. split; [lia|].
  apply (setNumber_glyph_decodes (tpl:=timer) 1 10 true timer_1234);
    [timer_wf|simpl; lia|lia].
Defined.

Lemma setValue_reads_back_witness :
  (1 <= 16 <= 16)%N /\ wf (tpl:=timer) timer_dash /\
  (0xBEEF < 16 ^ N.of_nat 4)%N /\
  exists s',
    setValue (tpl:=timer) 16 0xBEEF false 4 timer_dash = Ok (true, s', []) /\
    read_number 16 (_display s') = 0xBEEF%N.
Proof.
  split; [lia|]. split; [timer_wf|]. split; [reflexivity|].
  apply (setValue_reads_back (tpl:=timer) 16 0xBEEF false 4 timer_dash);
    [lia|timer_wf|reflexivity].
Defined.

Lemma setValue_overwrites_witness :
  (1 <= 10 <= 16)%N /\ wf (tpl:=timer) timer_1234 /\ wf (tpl:=timer) timer_dash /\
  exists r s1' s2',
    setValue (tpl:=timer) 10 42 false 2 timer_1234 = Ok (r, s1', []) /\
    setValue (tpl:=timer) 10 42 false 2 timer_dash = Ok (r, s2', []) /\
    _display s1' = _display s2' /\
    setValue (tpl:=timer) 10 42 false 2 s1' = Ok (r, s1', []).
Proof.
  split; [lia|]. split; [timer_wf|]. split; [timer_wf|].
  apply (setValue_overwrites (tpl:=timer) 10 42 false 2 timer_1234 timer_dash);
    [lia|timer_wf|timer_wf].
Defined.

Lemma quiet_operations_write_nothing_witness :
  (wf (tpl:=timer) timer_1234 /\
   exists s',
     exec (tpl:=timer) (OpSetNumber 1 5 true false) timer_1234 = Ok (tt, s', []) /\
     same_lines timer_1234 s') /\
  (wf (tpl:=timer) timer_blanked /\ 4 <= _curdigit timer_blanked /\ 4 <= 255 /\
   exec (tpl:=timer) OpShow timer_blanked = Ok (tt, timer_blanked, []) /\
   4 <= _curdigit timer_blanked).
Proof.
  split.
  - split; [timer_wf|]. eexists. split; [vm_compute; reflexivity|].
    eapply (quiet_operations_write_nothing (tpl:=timer) (OpSetNumber 1 5 true false)
              timer_1234); [timer_wf|vm_compute; reflexivity|reflexivity].
  - split; [timer_wf|]. split; [simpl; lia|]. split; [lia|].
    split; [reflexivity|].
    eapply (quiet_operations_write_nothing (tpl:=timer) OpShow timer_blanked
              timer_blanked []); [timer_wf|reflexivity|simpl; lia|simpl; lia|left; reflexivity].
Defined.

Lemma only_bound_lines_are_written_witness :
  wf (tpl:=timer) timer_storage /\
  length timer_digits = 4 /\ length timer_segments = 8 /\
  exists s1 t1 s' tr,
    begin (tpl:=timer) timer_digits timer_segments false timer_storage = Ok (tt, s1, t1) /\
    run (tpl:=timer) timer_session s1 = Ok (tt, s', tr) /\
    Forall (touches (timer_digits ++ timer_segments)) (t1 ++ tr).
Proof.
  split; [timer_wf|]. split; [reflexivity|]. split; [reflexivity|].
  eexists _, _, _, _. split; [vm_compute; reflexivity|].
  split; [vm_compute; reflexivity|].
  eapply (only_bound_lines_are_written (tpl:=timer) timer_digits timer_segments false
            timer_session timer_storage);
    [timer_wf|reflexivity|reflexivity|repeat constructor
    |vm_compute; reflexivity|vm_compute; reflexivity].
Defined.

Lemma unblanking_writes_no_segment_line_witness :
  wf (tpl:=timer) timer_blanked /\ 4 <= _curdigit timer_blanked /\ 0 < 4 /\
  showDigit (tpl:=timer) 0 timer_blanked =
    Ok (tt, with_curdigit 0 timer_blanked, [DigitalWrite 5 true]) /\
  setBlank (tpl:=timer) false timer_blanked =
    Ok (tt, with_curdigit 0 timer_blanked, [DigitalWrite 5 true]).
Proof.
  destruct (unblanking_writes_no_segment_line (tpl:=timer) 0 timer_blanked)
    as (Hshow & Hblank & _); [timer_wf|simpl; lia|simpl; lia|].
  split; [timer_wf|]. split; [simpl; lia|]. split; [lia|].
  split; [exact Hshow|exact (Hblank eq_refl)].
Defined.

Lemma show_override_unblanks_witness :
  wf (tpl:=timer) timer_blanked /\ 4 <= 256 /\ 2 < 4 /\ (7 < 16)%N /\
  exists s' tr,
    setNumber (tpl:=timer) 2 7 false true timer_blanked = Ok (tt, s', tr) /\
    _curdigit s' = 2 /\ isBlank (tpl:=timer) s' = Ok (false, s', []) /\
    glyph_cell 7 false = _display s' !! 2.
Proof.
  destruct (show_override_unblanks (tpl:=timer) 2 0 7 false timer_blanked)
    as [_ Hnum]; [timer_wf|simpl; lia|simpl; lia|lia|].
  split; [timer_wf|]. split; [lia|]. split; [lia|]. split; [lia|exact Hnum].
Defined.

Lemma timer_segments_distinct : NoDup timer_segments.
Proof. compute_done. Qed.

Lemma lines_show_the_buffer_witness :
  wf (tpl:=timer) timer_1234 /\ _curdigit timer_1234 < 4 /\
  NoDup (_segmentpins timer_1234) /\
  separate (_digitpins timer_1234) (_segmentpins timer_1234) /\
  let lv' := replay (showDigit_trace (tpl:=timer) 3 timer_1234) ∅ in
  (forall k, k < 8 ->
     lv' !! pin_of timer_segments k =
     Some (seg_level (tpl:=timer) (N.testbit 0x66 (N.of_nat k)))) /\
  lv' !! 2%N = Some true /\
  lv' !! 3%N = Some false.
Proof.
  destruct (lines_show_the_buffer (tpl:=timer) 3 timer_1234 ∅)
    as (Hseg & Hon & Hoff);
    [timer_wf|simpl; lia|exact timer_segments_distinct|exact timer_separate|].
  split; [timer_wf|]. split; [simpl; lia|].
  split; [exact timer_segments_distinct|]. split; [exact timer_separate|].
  split; [exact Hseg|]. split.
  - apply Hon. simpl. lia.
  - apply Hoff; [simpl; lia|]. intros _. discriminate.
Defined.

Lemma decimal_point_bit_is_not_output_witness :
  havedp (Template:=plain) = false /\
  showDigit_trace (tpl:=plain) 1 (with_display [0x86; 0xDB; 0x4F; 0x66]%N timer_1234) =
  showDigit_trace (tpl:=plain) 1 (with_display [0x06; 0x5B; 0xCF; 0x66]%N timer_1234).
Proof.
  split; [reflexivity|].
  apply (decimal_point_bit_is_not_output (tpl:=plain) 1); [reflexivity|].
  intros i. do 4 (destruct i as [|i]; [reflexivity|]). reflexivity.
Defined.

Lemma begin_initialises_witness :
  wf (tpl:=timer) timer_storage /\ valid_config (tpl:=timer) /\
  4 <= length (timer_digits ++ [99%N]) /\ 8 <= length timer_segments /\
  exists s' rest,
    begin (tpl:=timer) (timer_digits ++ [99%N]) timer_segments true timer_storage =
      Ok (tt, s', init_trace false timer_digits ++ init_trace false timer_segments ++ rest) /\
    _digitpins s' = timer_digits /\
    _segmentpins s' = timer_segments /\
    _display s' = _display timer_storage /\
    isBlank (tpl:=timer) s' = Ok (true, s', []).
Proof.
  assert (Hcfg : valid_config (tpl:=timer)) by (unfold valid_config; simpl; lia).
  assert (Hd : 4 <= length (timer_digits ++ [99%N])) by (unfold timer_digits; simpl; lia).
  assert (Hs : 8 <= length timer_segments) by (unfold timer_segments; simpl; lia).
  split; [timer_wf|]. split; [exact Hcfg|]. split; [exact Hd|]. split; [exact Hs|].
  apply (begin_initialises (tpl:=timer) (timer_digits ++ [99%N]) timer_segments true
           timer_storage); [timer_wf|exact Hcfg|exact Hd|exact Hs].
Defined.

Lemma begin_short_array_witness :
  wf (tpl:=timer) timer_storage /\ length [5; 4; 3]%N < 4 /\
  begin (tpl:=timer) [5; 4; 3]%N timer_segments false timer_storage = OutOfBounds.
Proof.
  split; [timer_wf|]. split; [simpl; lia|].
  apply (begin_short_array (tpl:=timer)); [timer_wf|left; simpl; lia].
Defined.

Lemma refresh_shows_the_counter_witness :
  wf (tpl:=timer) timer_dash /\ (1125 < 10000)%N /\
  exists d',
    refresh 1125 timer_dash = Ok (tt, d', []) /\
    buffer_only timer_dash d' /\
    read_number 10 (_display d') = 1125%N /\
    forall i x, _display d' !! i = Some x ->
      N.testbit x 7 = ((i =? 2) || ((i =? 0) && (1000 <=? 1125)%N)).
Proof.
  split; [timer_wf|]. split; [lia|].
  apply (refresh_shows_the_counter 1125 timer_dash); [timer_wf|lia].
Defined.
